(** * Shallow embedding of the IoT Foundry Linux endpoint

    The development follows the three source files:
    - [include/config.h]: the [config_t] record and [SERIAL_PATH_MAX];
    - [src/main.c]: argument parsing ([baudRateFromString], [toLower],
      [parseBool], [parseArgs]) and [main] with its control loop;
    - [src/platform.c]: [platform_init] and the readiness queries.

    C [int]s are integers of [Z]; the values that occur (file descriptors,
    flags, character codes, termios speeds) never take part in arithmetic
    that could wrap.  C strings are [string]s; a [char *] that may be NULL
    is an [option string].  Everything the program prints or asks of the
    operating system is recorded as a list of [event]s, oldest first. *)

From Stdlib Require Import ZArith List String Ascii Bool Lia Arith.
From Stdlib Require Import DecimalString.
Import ListNotations.

Local Open Scope string_scope.
Local Open Scope list_scope.
Local Open Scope Z_scope.

(** ** Constants of the build platform

    [SERIAL_PATH_MAX] is [PATH_MAX] when the C library defines it and 1024
    otherwise (config.h); the [B...] speeds and the flag bits come from
    <termios.h> and <fcntl.h>.  None of them is fixed by the repository, so
    the embedding is parametric in them. *)
Class Platform : Type := {
  SERIAL_PATH_MAX : nat;
  B4800 : Z; B9600 : Z; B19200 : Z; B38400 : Z;
  B57600 : Z; B115200 : Z; B230400 : Z;
  PARENB : Z; CSTOPB : Z; CSIZE : Z; CS8 : Z; CRTSCTS : Z;
  CREAD : Z; CLOCAL : Z;
  ICANON : Z; ECHO : Z; ECHOE : Z; ISIG : Z;
  IXON : Z; IXOFF : Z; IXANY : Z;
  OPOST : Z;
  O_RDWR : Z; O_NOCTTY : Z; O_NDELAY : Z;
  TCSANOW : Z
}.

(** The values of Linux with the generic termbits (x86, arm, riscv).
    Neither source file includes <limits.h> before config.h, so [PATH_MAX]
    is not defined there and [SERIAL_PATH_MAX] is the fallback 1024. *)
Definition linux : Platform := {|
  SERIAL_PATH_MAX := 1024;
  B4800 := 12; B9600 := 13; B19200 := 14; B38400 := 15;
  B57600 := 4097; B115200 := 4098; B230400 := 4099;
  PARENB := 256; CSTOPB := 64; CSIZE := 48; CS8 := 48;
  CRTSCTS := 2147483648; CREAD := 128; CLOCAL := 2048;
  ICANON := 2; ECHO := 8; ECHOE := 16; ISIG := 1;
  IXON := 1024; IXOFF := 4096; IXANY := 2048;
  OPOST := 1;
  O_RDWR := 2; O_NOCTTY := 256; O_NDELAY := 2048;
  TCSANOW := 0
|}.

(** The speeds as a list, in the order of [baudMap]. *)
Definition speed_constants {P : Platform} : list Z :=
  [B4800; B9600; B19200; B38400; B57600; B115200; B230400].

(** ** config.h *)

Record config_t : Type := {
  baud : Z;        (* int baud *)
  hwflow : Z;      (* int hwflow *)
  path : string;   (* char path[SERIAL_PATH_MAX], read as a C string *)
  fd : Z           (* int fd, -1 if closed *)
}.

Definition set_baud (c : config_t) (b : Z) : config_t :=
  {| baud := b; hwflow := hwflow c; path := path c; fd := fd c |}.
Definition set_hwflow (c : config_t) (h : Z) : config_t :=
  {| baud := baud c; hwflow := h; path := path c; fd := fd c |}.
Definition set_path (c : config_t) (p : string) : config_t :=
  {| baud := baud c; hwflow := hwflow c; path := p; fd := fd c |}.
Definition set_fd (c : config_t) (f : Z) : config_t :=
  {| baud := baud c; hwflow := hwflow c; path := path c; fd := f |}.

(** [strncpy(dst, src, SERIAL_PATH_MAX - 1); dst[SERIAL_PATH_MAX - 1] = '\0';]
    read back as a C string: the first [SERIAL_PATH_MAX - 1] characters of
    [src]. *)
Definition strncpy_path {P : Platform} (src : string) : string :=
  substring 0 (SERIAL_PATH_MAX - 1) src.

(** ** Observable events *)

(** The attributes of a terminal ([struct termios]), as far as
    [platform_init] touches them. *)
Record termios : Type := {
  c_iflag : Z; c_oflag : Z; c_cflag : Z; c_lflag : Z;
  c_ispeed : Z; c_ospeed : Z
}.

(** What getopt_long writes to stderr ([opterr] is left at 1). *)
Inductive getopt_error : Type :=
| InvalidOption (c : ascii)
| RequiresArgument (s : string)
| UnrecognizedOption (s : string)
| AmbiguousOption (s : string)
| ArgumentNotAllowed (s : string).

Inductive event : Type :=
(* main.c, stdout *)
| EvCaughtSignal (signum : Z)
| EvWarnBaud (s : string)
| EvUsage (progName : option string)
| EvWarnBool (s : string)
| EvUsingSerial (p : string) (b : Z) (hw : bool)
| EvUsingPty
(* platform.c, stdout and stderr *)
| EvInitInfo (shown_path : string) (b : Z) (hw : bool)
| EvCreatedPty (p : string)
| EvPerror (what : string)
(* the C library, stderr *)
| EvGetopt (e : getopt_error)
(* system calls *)
| EvPosixOpenpt (flags : Z)
| EvGrantpt (f : Z)
| EvUnlockpt (f : Z)
| EvPtsname (f : Z)
| EvOpen (p : string) (flags : Z)
| EvTcgetattr (f : Z)
| EvTcsetattr (f : Z) (actions : Z) (t : termios)
| EvSelect (nfds : Z) (readfds writefds exceptfds : option (list Z))
    (timeout : option (Z * Z))
| EvRead (f : Z)
| EvWrite (f : Z) (b : Z)
| EvClose (f : Z).

(** ** main.c: the configuration structure *)

Definition serial_device : config_t :=
  {| baud := 115200; hwflow := 0; path := ""; fd := -1 |}.

(** ** main.c: baudRateFromString *)

Definition baudMap {P : Platform} : list (string * Z) :=
  [("4800", B4800); ("9600", B9600); ("19200", B19200);
   ("38400", B38400); ("57600", B57600); ("115200", B115200);
   ("230400", B230400)].

(** The [for] loop over the table: the value of the first entry whose name
    is [str]. *)
Fixpoint baud_lookup (table : list (string * Z)) (str : string) : option Z :=
  match table with
  | [] => None
  | (name, val) :: rest =>
      if String.eqb str name then Some val else baud_lookup rest str
  end.

Definition baudRateFromString {P : Platform} (str : option string)
  : Z * list event :=
  match str with
  | None => (B115200, [])
  | Some s =>
      match baud_lookup baudMap s with
      | Some v => (v, [])
      | None => (B115200, [EvWarnBaud s])
      end
  end.

(** The tokens of the table, and the rates they spell. *)
Definition baud_tokens {P : Platform} : list string := map fst baudMap.

Definition rate_of_token (s : string) : option Z :=
  option_map Z.of_uint (NilZero.uint_of_string s).

(** ** main.c: toLower and parseBool *)

(** [tolower] of the C locale (the program never calls setlocale). *)
Definition tolower (c : ascii) : ascii :=
  let n := nat_of_ascii c in
  if ((65 <=? n) && (n <=? 90))%nat then ascii_of_nat (n + 32) else c.

Fixpoint toLower (s : string) : string :=
  match s with
  | EmptyString => EmptyString
  | String c rest => String (tolower c) (toLower rest)
  end.

(** [parseBool] lowers its argument in place; the lowered string is what
    the warning shows. *)
Definition parseBool (s : option string) : Z * list event :=
  match s with
  | None => (0, [])
  | Some s0 =>
      let s := toLower s0 in
      if String.eqb s "true" || String.eqb s "1" || String.eqb s "yes"
      then (1, [])
      else if String.eqb s "false" || String.eqb s "0" || String.eqb s "no"
      then (0, [])
      else (0, [EvWarnBool s])
  end.

(** ** The C library: getopt_long

    getopt_long is not part of the repository.  The model follows glibc's
    scanner in its default mode (option string without a leading '+' or
    '-', POSIXLY_CORRECT unset): operands are skipped, "--" ends the scan,
    a long option may be abbreviated to an unambiguous prefix and may carry
    its argument after '=', short options may be clustered.  Two things the
    caller never reads are left out: the reordering of the elements of argv
    already scanned (all at indices from 1 to below [optind]), and the
    value glibc gives [optind] when it returns -1. *)

Definition ch (c : ascii) : Z := Z.of_nat (nat_of_ascii c).

(** [struct option]; [flag] is NULL in every entry the program declares,
    so getopt_long returns [val]. *)
Record option_t : Type := {
  lo_name : string;
  lo_has_arg : Z;
  lo_val : Z
}.

Definition no_argument : Z := 0.
Definition required_argument : Z := 1.
Definition optional_argument : Z := 2.

(** The scanner's state between calls: the globals [optind] and [optarg],
    and the rest of the cluster of short options being read (empty when
    the next call starts a new element of argv). *)
Record getopt_data : Type := {
  optind : nat;
  optarg : option string;
  nextchar : string
}.

Definition getopt_start : getopt_data :=
  {| optind := 1; optarg := None; nextchar := "" |}.

(** [argv[optind][0] != '-' || argv[optind][1] == '\0'] *)
Definition NONOPTION_P (s : string) : bool :=
  match s with
  | String c (String _ _) => negb (Ascii.eqb c "-")
  | _ => true
  end.

(** [while (optind < argc && NONOPTION_P) optind++;] over the elements from
    [optind] on. *)
Fixpoint skip_nonoptions (rest : list string) (i : nat) : nat :=
  match rest with
  | [] => i
  | s :: rest' => if NONOPTION_P s then skip_nonoptions rest' (S i) else i
  end.

(** The name of a long option up to '=', and what follows the '='. *)
Fixpoint split_name (s : string) : string * option string :=
  match s with
  | EmptyString => (EmptyString, None)
  | String c rest =>
      if Ascii.eqb c "="%char then (EmptyString, Some rest)
      else let (n, a) := split_name rest in (String c n, a)
  end.

Definition is_empty (s : string) : bool :=
  match s with EmptyString => true | _ => false end.

Definition starts_with (c : ascii) (s : string) : bool :=
  match s with String x _ => Ascii.eqb x c | EmptyString => false end.

Inductive long_lookup : Type :=
| LongFound (p : option_t)
| LongAmbiguous
| LongUnknown.

(** An exact match wins; otherwise the first entry the name is a prefix of,
    unless a later such entry differs from it in [has_arg] or [val]. *)
Definition find_long (longopts : list option_t) (nm : string) : long_lookup :=
  match find (fun p => String.eqb (lo_name p) nm) longopts with
  | Some p => LongFound p
  | None =>
      match filter (fun p => prefix nm (lo_name p)) longopts with
      | [] => LongUnknown
      | p :: others =>
          if existsb (fun q => negb (lo_has_arg q =? lo_has_arg p)
                               || negb (lo_val q =? lo_val p)) others
          then LongAmbiguous
          else LongFound p
      end
  end.

(** The value returned for a missing argument or an unknown option. *)
Definition missing_code (optstring : string) : Z :=
  if starts_with ":" optstring then ch ":" else ch "?".

Definition print_errors (optstring : string) (e : getopt_error) : list event :=
  if starts_with ":" optstring then [] else [EvGetopt e].

(** [process_long_option] for the element at index [i], whose text after
    "--" is [text]. *)
Definition process_long_option (argv : list string) (optstring : string)
    (longopts : list option_t) (i : nat) (text : string)
  : Z * getopt_data * list event :=
  let (nm, arg) := split_name text in
  match find_long longopts nm with
  | LongAmbiguous =>
      (ch "?", {| optind := S i; optarg := None; nextchar := "" |},
       print_errors optstring (AmbiguousOption text))
  | LongUnknown =>
      (ch "?", {| optind := S i; optarg := None; nextchar := "" |},
       print_errors optstring (UnrecognizedOption text))
  | LongFound p =>
      match arg with
      | Some a =>
          if lo_has_arg p =? no_argument
          then (ch "?", {| optind := S i; optarg := None; nextchar := "" |},
                print_errors optstring (ArgumentNotAllowed (lo_name p)))
          else (lo_val p,
                {| optind := S i; optarg := Some a; nextchar := "" |}, [])
      | None =>
          if lo_has_arg p =? required_argument
          then match nth_error argv (S i) with
               | Some a =>
                   (lo_val p,
                    {| optind := S (S i); optarg := Some a; nextchar := "" |},
                    [])
               | None =>
                   (missing_code optstring,
                    {| optind := S i; optarg := None; nextchar := "" |},
                    print_errors optstring (RequiresArgument (lo_name p)))
               end
          else (lo_val p,
                {| optind := S i; optarg := None; nextchar := "" |}, [])
      end
  end.

(** [strchr(optstring, c)]: the option string from the first [c] on. *)
Fixpoint optstring_find (optstring : string) (c : ascii) : option string :=
  match optstring with
  | EmptyString => None
  | String x rest =>
      if Ascii.eqb x c then Some optstring else optstring_find rest c
  end.

(** How many colons follow the option character at the head of [temp]
    (a suffix of the option string): 0 for a plain option, 1 when an
    argument is required, 2 when it is optional. *)
Definition colons_after (temp : string) : nat :=
  match temp with
  | String _ t1 =>
      if starts_with ":" t1
      then match t1 with
           | String _ t2 => if starts_with ":" t2 then 2%nat else 1%nat
           | EmptyString => 1%nat
           end
      else 0%nat
  | EmptyString => 0%nat
  end.

(** The next short option [c] of the cluster in element [i]; [rest] is the
    cluster after [c].  [optind] moves on when the last character of the
    element is taken up. *)
Definition short_option (argv : list string) (optstring : string)
    (i : nat) (c : ascii) (rest : string)
  : Z * getopt_data * list event :=
  let optind1 := if is_empty rest then S i else i in
  let invalid :=
    (ch "?", {| optind := optind1; optarg := None; nextchar := rest |},
     print_errors optstring (InvalidOption c)) in
  if Ascii.eqb c ":" || Ascii.eqb c ";" then invalid
  else
    match optstring_find optstring c with
    | None => invalid
    | Some temp =>
        match colons_after temp with
        | O =>
            (ch c, {| optind := optind1; optarg := None; nextchar := rest |},
             [])
        | S O =>
            (* an argument is required *)
            if is_empty rest
            then match nth_error argv optind1 with
                 | Some a =>
                     (ch c,
                      {| optind := S optind1; optarg := Some a;
                         nextchar := "" |}, [])
                 | None =>
                     (missing_code optstring,
                      {| optind := optind1; optarg := None; nextchar := "" |},
                      print_errors optstring
                        (RequiresArgument (String c EmptyString)))
                 end
            else (ch c,
                  {| optind := S optind1; optarg := Some rest;
                     nextchar := "" |}, [])
        | S (S _) =>
            (* an argument is optional *)
            if is_empty rest
            then (ch c,
                  {| optind := optind1; optarg := None; nextchar := "" |}, [])
            else (ch c,
                  {| optind := S optind1; optarg := Some rest;
                     nextchar := "" |}, [])
        end
    end.

Definition getopt_long (argv : list string) (optstring : string)
    (longopts : list option_t) (d : getopt_data)
  : Z * getopt_data * list event :=
  match nextchar d with
  | String c rest => short_option argv optstring (optind d) c rest
  | EmptyString =>
      let i := skip_nonoptions (skipn (optind d) argv) (optind d) in
      let stop := (-1, {| optind := i; optarg := None; nextchar := "" |}, []) in
      match nth_error argv i with
      | None => stop
      | Some elt =>
          if NONOPTION_P elt then stop  (* not reached: the skip ends at an option *)
          else
            match elt with
            | String _ (String c rest) =>
                if Ascii.eqb c "-" then
                  if is_empty rest
                  then (* "--" ends the options *)
                    (-1, {| optind := List.length argv; optarg := None;
                            nextchar := "" |}, [])
                  else process_long_option argv optstring longopts i rest
                else short_option argv optstring i c rest
            | _ => stop
            end
      end
  end.

(** ** main.c: parseArgs *)

Definition longOpts : list option_t :=
  [ {| lo_name := "tty"; lo_has_arg := optional_argument; lo_val := ch "t" |};
    {| lo_name := "baud"; lo_has_arg := optional_argument; lo_val := ch "b" |};
    {| lo_name := "hwflow"; lo_has_arg := optional_argument;
       lo_val := ch "f" |};
    {| lo_name := "help"; lo_has_arg := no_argument; lo_val := ch "h" |} ].

Definition optstring_main : string := "t:b:f:h".

(** The block each of the three option cases starts with:
    [char *val = optarg;
     if (!val && optind < argc && argv[optind][0] != '-') val = argv[optind++];] *)
Definition option_value (argv : list string) (d : getopt_data)
  : option string * getopt_data :=
  match optarg d with
  | Some v => (Some v, d)
  | None =>
      match nth_error argv (optind d) with
      | Some a =>
          if starts_with "-" a then (None, d)
          else (Some a, {| optind := S (optind d); optarg := optarg d;
                           nextchar := nextchar d |})
      | None => (None, d)
      end
  end.

(** The state of the scan between two passes of the loop: getopt's state,
    [serial_device], and what has been printed. *)
Definition parse_state : Type := (getopt_data * config_t * list event)%type.

(** One pass of the [while] loop of parseArgs: the call of getopt_long and
    the [switch].  [inl] is a [return] with its value (1 when getopt_long
    answers -1 and the loop ends), [inr] the state in which the loop goes
    on. *)
Definition parseArgs_step {P : Platform} (argv : list string)
    (s : parse_state) : (Z * config_t * list event) + parse_state :=
  let '(d, cfg, out) := s in
  let '(opt, d1, ev) := getopt_long argv optstring_main longOpts d in
  let out1 := out ++ ev in
  if opt =? -1 then inl (1, cfg, out1)
  else if opt =? ch "t" then
    let (val, d2) := option_value argv d1 in
    match val with
    | Some v => inr (d2, set_path cfg (strncpy_path v), out1)
    | None => inr (d2, set_path cfg "", out1)
    end
  else if opt =? ch "b" then
    let (val, d2) := option_value argv d1 in
    match val with
    | Some v =>
        let (b, w) := baudRateFromString (Some v) in
        inr (d2, set_baud cfg b, out1 ++ w)
    | None => inr (d2, cfg, out1)
    end
  else if opt =? ch "f" then
    let (val, d2) := option_value argv d1 in
    match val with
    | Some v =>
        let (pb, w) := parseBool (Some v) in
        inr (d2, set_hwflow cfg pb, out1 ++ w)
    | None => inr (d2, cfg, out1)
    end
  else inl (0, cfg, out1 ++ [EvUsage (nth_error argv 0)]).

(** The loop itself.  [fuel] bounds the number of passes; [parseArgs] below
    supplies enough of it. *)
Fixpoint parseArgs_loop {P : Platform} (fuel : nat) (argv : list string)
    (s : parse_state) : option (Z * config_t * list event) :=
  match fuel with
  | O => None
  | S fuel' =>
      match parseArgs_step argv s with
      | inl r => Some r
      | inr s' => parseArgs_loop fuel' argv s'
      end
  end.

(** What is left to scan: one unit per character and per element. *)
Definition args_weight (l : list string) : nat :=
  list_sum (map (fun s => S (String.length s)) l).

Definition scan_weight (argv : list string) (d : getopt_data) : nat :=
  match nextchar d with
  | EmptyString => args_weight (skipn (optind d) argv)
  | String _ rest =>
      S (String.length rest) + args_weight (skipn (S (optind d)) argv)
  end.

Definition parseArgs {P : Platform} (argv : list string) (cfg : config_t)
  : option (Z * config_t * list event) :=
  parseArgs_loop (S (args_weight argv)) argv (getopt_start, cfg, []).

(** ** platform.c

    The operating system and the C library as [platform_init] and the
    readiness queries see them: what each call answers.  Every call is made
    at most once in a run of the function that makes it, so an answer per
    call is all the environment there is. *)
Record os_env : Type := {
  os_posix_openpt : Z -> Z;
  os_grantpt : Z -> Z;
  os_unlockpt : Z -> Z;
  os_ptsname : Z -> option string;
  os_open : string -> Z -> Z;
  os_tcgetattr : Z -> Z * termios;
  os_cfsetospeed : termios -> Z -> termios;
  os_cfsetispeed : termios -> Z -> termios;
  os_tcsetattr : Z -> Z -> termios -> Z;
  os_select : Z -> option (list Z) -> option (list Z) -> option (list Z) ->
              option (Z * Z) -> Z * option (list Z) * option (list Z);
  os_read : Z -> Z * Z;
  os_write : Z -> Z -> Z
}.

(** [flags &= ~mask] and [flags |= mask] on a [tcflag_t]. *)
Definition clear_bits (flags mask : Z) : Z := Z.land flags (Z.lnot mask).
Definition set_bits (flags mask : Z) : Z := Z.lor flags mask.

(** The attributes [platform_init] asks for, from those read back. *)
Definition configure_tty {P : Platform} (env : os_env) (cfg : config_t)
    (tty : termios) : termios :=
  let tty := os_cfsetospeed env tty (baud cfg) in
  let tty := os_cfsetispeed env tty (baud cfg) in
  let cf := clear_bits (c_cflag tty) PARENB in
  let cf := clear_bits cf CSTOPB in
  let cf := clear_bits cf CSIZE in
  let cf := set_bits cf CS8 in
  let cf := clear_bits cf CRTSCTS in
  let cf := if hwflow cfg =? 0 then cf else set_bits cf CRTSCTS in
  let cf := set_bits cf (Z.lor CREAD CLOCAL) in
  {| c_iflag := clear_bits (c_iflag tty) (Z.lor (Z.lor IXON IXOFF) IXANY);
     c_oflag := clear_bits (c_oflag tty) OPOST;
     c_cflag := cf;
     c_lflag :=
       clear_bits (c_lflag tty) (Z.lor (Z.lor (Z.lor ICANON ECHO) ECHOE) ISIG);
     c_ispeed := c_ispeed tty;
     c_ospeed := c_ospeed tty |}.

(** [O_RDWR | O_NOCTTY] and [O_RDWR | O_NOCTTY | O_NDELAY]. *)
Definition pty_flags {P : Platform} : Z := Z.lor O_RDWR O_NOCTTY.
Definition open_flags {P : Platform} : Z :=
  Z.lor (Z.lor O_RDWR O_NOCTTY) O_NDELAY.

Definition platform_init {P : Platform} (env : os_env) (cfg : config_t)
  : config_t * list event :=
  let info :=
    EvInitInfo (if is_empty (path cfg) then "(pty)" else path cfg)
               (baud cfg) (negb (hwflow cfg =? 0)) in
  if is_empty (path cfg) then
    let flags := pty_flags in
    let master_fd := os_posix_openpt env flags in
    let out := [info; EvPosixOpenpt flags] in
    if master_fd =? -1 then (cfg, out ++ [EvPerror "posix_openpt"])
    else
      let out := out ++ [EvGrantpt master_fd] in
      if os_grantpt env master_fd =? -1
      then (cfg, out ++ [EvPerror "grantpt/unlockpt"; EvClose master_fd])
      else
        let out := out ++ [EvUnlockpt master_fd] in
        if os_unlockpt env master_fd =? -1
        then (cfg, out ++ [EvPerror "grantpt/unlockpt"; EvClose master_fd])
        else
          let out := out ++ [EvPtsname master_fd] in
          match os_ptsname env master_fd with
          | None => (cfg, out ++ [EvPerror "ptsname"; EvClose master_fd])
          | Some slave_name =>
              let cfg := set_path cfg (strncpy_path slave_name) in
              let cfg := set_fd cfg master_fd in
              (cfg, out ++ [EvCreatedPty (path cfg)])
          end
  else
    let flags := open_flags in
    let cfg := set_fd cfg (os_open env (path cfg) flags) in
    let out := [info; EvOpen (path cfg) flags] in
    if fd cfg =? -1 then (cfg, out ++ [EvPerror "open"])
    else
      let out := out ++ [EvTcgetattr (fd cfg)] in
      let (r, tty) := os_tcgetattr env (fd cfg) in
      if negb (r =? 0)
      then (set_fd cfg (-1), out ++ [EvPerror "tcgetattr"; EvClose (fd cfg)])
      else
        let tty := configure_tty env cfg tty in
        let out := out ++ [EvTcsetattr (fd cfg) TCSANOW tty] in
        if negb (os_tcsetattr env (fd cfg) TCSANOW tty =? 0)
        then (set_fd cfg (-1),
              out ++ [EvPerror "tcsetattr"; EvClose (fd cfg)])
        else (cfg, out).

(** [FD_ISSET(fd, &set)] *)
Definition FD_ISSET (f : Z) (set : option (list Z)) : bool :=
  match set with
  | Some l => existsb (Z.eqb f) l
  | None => false
  end.

Definition platform_serial_has_data (env : os_env) (cfg : config_t)
  : Z * list event :=
  if fd cfg =? -1 then (0, [])
  else
    let rfds := Some [fd cfg] in
    let tv := Some (0, 0) in
    let '(ret, rfds', _) := os_select env (fd cfg + 1) rfds None None tv in
    (if ret >? 0 then (if FD_ISSET (fd cfg) rfds' then 1 else 0) else 0,
     [EvSelect (fd cfg + 1) rfds None None tv]).

Definition platform_serial_read_byte (env : os_env) (cfg : config_t)
  : Z * list event :=
  let (result, byte) := os_read env (fd cfg) in
  (if result =? 1 then byte else 0, [EvRead (fd cfg)]).

Definition platform_serial_write_byte (env : os_env) (cfg : config_t) (b : Z)
  : list event :=
  if os_write env (fd cfg) b =? 1 then [EvWrite (fd cfg) b]
  else [EvWrite (fd cfg) b; EvPerror "write"].

Definition platform_serial_can_write (env : os_env) (cfg : config_t)
  : Z * list event :=
  if fd cfg =? -1 then (0, [])
  else
    let wfds := Some [fd cfg] in
    let tv := Some (0, 0) in
    let '(ret, _, wfds') := os_select env (fd cfg + 1) None wfds None tv in
    (if ret >? 0 then (if FD_ISSET (fd cfg) wfds' then 1 else 0) else 0,
     [EvSelect (fd cfg + 1) None wfds None tv]).

(** Whether a list of events has a call of select, and with which waits. *)
Definition select_timeouts (out : list event) : list (option (Z * Z)) :=
  flat_map (fun e => match e with
                     | EvSelect _ _ _ _ tv => [tv]
                     | _ => []
                     end) out.

(** The file descriptors closed in a list of events, in order. *)
Definition closed_fds (out : list event) : list Z :=
  flat_map (fun e => match e with EvClose f => [f] | _ => [] end) out.

(** The diagnostics of [perror] in a list of events. *)
Definition perrors (out : list event) : list string :=
  flat_map (fun e => match e with EvPerror s => [s] | _ => [] end) out.

(** Whether an event belongs to the transport: a system call on the device
    or one of [platform_init]'s reports. *)
Definition is_transport_event (e : event) : bool :=
  match e with
  | EvInitInfo _ _ _ | EvCreatedPty _ | EvPerror _
  | EvPosixOpenpt _ | EvGrantpt _ | EvUnlockpt _ | EvPtsname _
  | EvOpen _ _ | EvTcgetattr _ | EvTcsetattr _ _ _
  | EvSelect _ _ _ _ _ | EvRead _ | EvWrite _ _ | EvClose _ => true
  | _ => false
  end.

(** The events argument parsing can produce: its warnings, the usage text
    and getopt_long's own complaints. *)
Definition is_parser_event (e : event) : bool :=
  match e with
  | EvWarnBaud _ | EvWarnBool _ | EvUsage _ | EvGetopt _ => true
  | _ => false
  end.

(** The report "Using serial device: ...". *)
Definition is_serial_banner (e : event) : bool :=
  match e with
  | EvUsingSerial _ _ _ => true
  | _ => false
  end.

(** ** core/mctp.h: the packet processor

    The processor is consumed through its interface only.  Its state is
    abstract (it stands for the framer together with whatever the line will
    deliver); it owns no part of [serial_device]. *)
Class Processor : Type := {
  mctp_state : Type;
  mctp_start : mctp_state;
  mctp_core_init : mctp_state -> mctp_state;
  mctp_update : mctp_state -> mctp_state;
  mctp_is_packet_available : mctp_state -> bool;
  mctp_is_control_packet : mctp_state -> bool;
  mctp_process_control_message : mctp_state -> mctp_state;
  mctp_ignore_packet : mctp_state -> mctp_state;
  PLDM_SUPPORT : bool;
  mctp_is_pldm_packet : mctp_state -> bool;
  pldm_process_packet : mctp_state -> mctp_state
}.

(** A processor that never has a packet. *)
Definition idle_processor : Processor := {|
  mctp_state := unit;
  mctp_start := tt;
  mctp_core_init := fun m => m;
  mctp_update := fun m => m;
  mctp_is_packet_available := fun _ => false;
  mctp_is_control_packet := fun _ => false;
  mctp_process_control_message := fun m => m;
  mctp_ignore_packet := fun m => m;
  PLDM_SUPPORT := false;
  mctp_is_pldm_packet := fun _ => false;
  pldm_process_packet := fun m => m
|}.

(** ** main.c: main *)

(** The globals of the process, and what it has printed and called. *)
Record world {M : Processor} : Type := {
  device : config_t;     (* serial_device *)
  interrupted : Z;       (* static volatile int interrupted *)
  mctp : mctp_state;
  output : list event
}.

Definition world_start {M : Processor} : world :=
  {| device := serial_device; interrupted := 0; mctp := mctp_start;
     output := [] |}.

Definition signalHandler {M : Processor} (w : world) (signum : Z) : world :=
  {| device := device w; interrupted := 1; mctp := mctp w;
     output := output w ++ [EvCaughtSignal signum] |}.

(** When signals arrive: those delivered during startup (after the
    handlers are installed and before the loop first tests the flag, or
    before main returns early), and those delivered while iteration [n]
    (counted from 0) runs.
    The loop reads the flag only between iterations, so this is all of a
    signal's timing that the program can observe. *)
Record schedule : Type := {
  at_startup : list Z;
  in_iteration : nat -> list Z
}.

Definition deliver {M : Processor} (signums : list Z) (w : world) : world :=
  fold_left signalHandler signums w.

(** Modelled from the spec: the body of mctp_init (core/mctp.h) is not in
    the source.  main.c calls it to "initialize the mctp subsystem (and
    platform)" and platform.c documents that it calls [platform_init] once;
    the rest of it is the processor's own initialisation. *)
Definition mctp_init {P : Platform} {M : Processor} (env : os_env) (w : world)
  : world :=
  let (cfg, ev) := platform_init env (device w) in
  {| device := cfg; interrupted := interrupted w;
     mctp := mctp_core_init (mctp w); output := output w ++ ev |}.

(** One pass of the body of the [while] loop. *)
Definition loop_body {M : Processor} (w : world) : world :=
  let m := mctp_update (mctp w) in
  let m :=
    if mctp_is_packet_available m then
      if mctp_is_control_packet m then mctp_process_control_message m
      else if PLDM_SUPPORT && mctp_is_pldm_packet m then pldm_process_packet m
      else mctp_ignore_packet m
    else m in
  {| device := device w; interrupted := interrupted w; mctp := m;
     output := output w |}.

(** [while (!interrupted) { ... }] from the test before iteration [n];
    the result is the number of iterations run and the state at exit, or
    [None] when [fuel] iterations did not see the flag set. *)
Fixpoint control_loop {M : Processor} (fuel : nat) (sched : schedule)
    (n : nat) (w : world) : option (nat * world) :=
  if interrupted w =? 0 then
    match fuel with
    | O => None
    | S fuel' =>
        control_loop fuel' sched (S n)
          (deliver (in_iteration sched n) (loop_body w))
    end
  else Some (n, w).

(** [if (serial_device.fd != -1) { close(serial_device.fd);
    serial_device.fd = -1; }] *)
Definition teardown {M : Processor} (w : world) : world :=
  if fd (device w) =? -1 then w
  else {| device := set_fd (device w) (-1); interrupted := interrupted w;
          mctp := mctp w; output := output w ++ [EvClose (fd (device w))] |}.

(** <stdlib.h> *)
Definition EXIT_FAILURE : Z := 1.

(** main up to the report of the device in use: [inl] is an early return
    with its status. *)
Definition main_startup {P : Platform} {M : Processor} (argv : list string)
  : option (Z * world + world) :=
  match parseArgs argv (device world_start) with
  | None => None
  | Some (ok, cfg, out) =>
      let w := {| device := cfg; interrupted := interrupted world_start;
                  mctp := mctp world_start; output := out |} in
      if ok =? 0 then Some (inl (EXIT_FAILURE, w))
      else
        let banner :=
          if fd cfg >? -1
          then EvUsingSerial (path cfg) (baud cfg) (negb (hwflow cfg =? 0))
          else EvUsingPty in
        Some (inr {| device := cfg; interrupted := interrupted w;
                     mctp := mctp w; output := out ++ [banner] |})
  end.

(** main: the status it returns, the number of iterations of the loop, and
    the state at exit; [None] when [fuel] iterations pass without the flag
    being set.  The handlers are installed before parseArgs is called, so
    the signals of the startup phase run [signalHandler] whether parsing
    fails or not: when main returns early they have been delivered by then,
    and otherwise by the loop's first test, which is the first time the
    flag is read.  The handler touches the flag and stdout only, so where
    among the startup output a notice falls is all that its timing decides;
    the notices are put after that output ([main_startup_signal_timing]
    below shows that nothing else depends on it). *)
Definition main {P : Platform} {M : Processor} (argv : list string)
    (env : os_env) (sched : schedule) (fuel : nat)
  : option (Z * nat * world) :=
  match main_startup argv with
  | None => None
  | Some (inl (st, w)) => Some (st, 0%nat, deliver (at_startup sched) w)
  | Some (inr w) =>
      let w := mctp_init env w in
      let w := deliver (at_startup sched) w in
      match control_loop fuel sched 0 w with
      | None => None
      | Some (n, w) => Some (0, n, teardown w)
      end
  end.

(** main with the signals of the startup phase delivered as soon as
    parseArgs has returned, before mctp_init: the other end of the span in
    which they can arrive.  [main_startup_signal_timing] below compares
    the two. *)
Definition main_signals_first {P : Platform} {M : Processor}
    (argv : list string) (env : os_env) (sched : schedule) (fuel : nat)
  : option (Z * nat * world) :=
  match main_startup argv with
  | None => None
  | Some (inl (st, w)) => Some (st, 0%nat, deliver (at_startup sched) w)
  | Some (inr w) =>
      let w := deliver (at_startup sched) w in
      let w := mctp_init env w in
      match control_loop fuel sched 0 w with
      | None => None
      | Some (n, w) => Some (0, n, teardown w)
      end
  end.

(** ** Vocabulary of the statements *)

(** The states in which parseArgs calls getopt_long, for the scan that
    starts from the configuration [cfg0]. *)
Inductive scan_reaches {P : Platform} (argv : list string) (cfg0 : config_t)
  : parse_state -> Prop :=
| reach_start : scan_reaches argv cfg0 (getopt_start, cfg0, [])
| reach_step (s s' : parse_state) :
    scan_reaches argv cfg0 s ->
    parseArgs_step argv s = inr s' ->
    scan_reaches argv cfg0 s'.

(** What getopt_long answers in a state of the scan. *)
Definition getopt_answer (argv : list string) (s : parse_state) : Z :=
  fst (fst (getopt_long argv optstring_main longOpts (fst (fst s)))).

(** The answers parseArgs can get from getopt_long. *)
Definition parse_answers : list Z :=
  [-1; ch "t"; ch "b"; ch "f"; ch "h"; ch "?"].

(** The rates the tokens of [baudMap] spell, and the highest of them. *)
Definition supported_rates {P : Platform} : list Z :=
  flat_map (fun s => match rate_of_token s with
                     | Some r => [r]
                     | None => []
                     end) baud_tokens.

Definition highest_rate {P : Platform} : Z := fold_right Z.max 0 supported_rates.

(** [s] and [t] differ in the case of their letters at most. *)
Definition same_casing (s t : string) : Prop := toLower s = toLower t.

Definition true_tokens : list string := ["true"; "1"; "yes"].
Definition false_tokens : list string := ["false"; "0"; "no"].

(** The steps of [platform_init] that can fail, and what it means for the
    environment to fail one: the answer the code tests for, to the call the
    code makes. *)
Inductive init_step : Type :=
| PairCreation | PermissionGrant | Unlock | SlaveName
| DeviceOpen | AttributeRead | AttributeWrite.

Definition step_fails {P : Platform} (env : os_env) (cfg : config_t)
    (s : init_step) : Prop :=
  let master_fd := os_posix_openpt env pty_flags in
  let f := os_open env (path cfg) open_flags in
  match s with
  | PairCreation => path cfg = "" /\ master_fd = -1
  | PermissionGrant => path cfg = "" /\ os_grantpt env master_fd = -1
  | Unlock => path cfg = "" /\ os_unlockpt env master_fd = -1
  | SlaveName => path cfg = "" /\ os_ptsname env master_fd = None
  | DeviceOpen => path cfg <> "" /\ f = -1
  | AttributeRead => path cfg <> "" /\ fst (os_tcgetattr env f) <> 0
  | AttributeWrite =>
      path cfg <> "" /\
      os_tcsetattr env f TCSANOW
        (configure_tty env (set_fd cfg f) (snd (os_tcgetattr env f))) <> 0
  end.

(** When the interrupt flag is first set: by a signal that arrives before
    the loop's first test, or during iteration [k]. *)
Inductive flag_point : Type :=
| AtStartup
| InIteration (k : nat).

Definition first_set (sched : schedule) (t : flag_point) : Prop :=
  match t with
  | AtStartup => at_startup sched <> []
  | InIteration k =>
      at_startup sched = [] /\
      (forall j, (j < k)%nat -> in_iteration sched j = []) /\
      in_iteration sched k <> []
  end.

(** The iterations that have begun by then. *)
Definition iterations_begun (t : flag_point) : nat :=
  match t with
  | AtStartup => 0%nat
  | InIteration k => S k
  end.

(** *** Sample environments *)

Definition termios_zero : termios :=
  {| c_iflag := 0; c_oflag := 0; c_cflag := 0; c_lflag := 0;
     c_ispeed := 0; c_ospeed := 0 |}.

(** cfsetospeed and cfsetispeed of glibc 2.36 on Linux.  A speed that is
    no code of the CBAUD field is refused and the attributes are left as
    they are (the program does not look at the result); otherwise the code
    goes into the speed field and into the CBAUD bits of [c_cflag], and
    cfsetispeed keeps IBAUD0 of [c_iflag] for the speed 0 alone. *)
Definition CBAUD : Z := 4111.
Definition IBAUD0 : Z := 2147483648.

Definition valid_speed (speed : Z) : bool :=
  (Z.land speed (Z.lnot CBAUD) =? 0) || ((4097 <=? speed) && (speed <=? 4111)).

Definition glibc_cfsetospeed (t : termios) (speed : Z) : termios :=
  if valid_speed speed
  then {| c_iflag := c_iflag t; c_oflag := c_oflag t;
          c_cflag := set_bits (clear_bits (c_cflag t) CBAUD) speed;
          c_lflag := c_lflag t;
          c_ispeed := c_ispeed t; c_ospeed := speed |}
  else t.

Definition glibc_cfsetispeed (t : termios) (speed : Z) : termios :=
  if valid_speed speed
  then {| c_iflag := if speed =? 0 then set_bits (c_iflag t) IBAUD0
                     else clear_bits (c_iflag t) IBAUD0;
          c_oflag := c_oflag t;
          c_cflag := if speed =? 0 then c_cflag t
                     else set_bits (clear_bits (c_cflag t) CBAUD) speed;
          c_lflag := c_lflag t;
          c_ispeed := speed; c_ospeed := c_ospeed t |}
  else t.

(** An environment that answers each call with the given value. *)
Definition os_sample (openpt grant unlock : Z) (pts : option string)
    (opened getattr setattr : Z) : os_env :=
  {| os_posix_openpt := fun _ => openpt;
     os_grantpt := fun _ => grant;
     os_unlockpt := fun _ => unlock;
     os_ptsname := fun _ => pts;
     os_open := fun _ _ => opened;
     os_tcgetattr := fun _ => (getattr, termios_zero);
     os_cfsetospeed := glibc_cfsetospeed;
     os_cfsetispeed := glibc_cfsetispeed;
     os_tcsetattr := fun _ _ _ => setattr;
     os_select := fun _ r w _ _ => (0, r, w);
     os_read := fun _ => (0, 0);
     os_write := fun _ _ => 1 |}.

(** Everything works; descriptor 3 is handed out. *)
Definition os_fine : os_env :=
  os_sample 3 0 0 (Some "/dev/pts/7") 3 0 0.

(** No pseudo-terminal can be had. *)
Definition os_no_pty : os_env :=
  os_sample (-1) 0 0 (Some "/dev/pts/7") 3 0 0.

(** A signal [signum] during iteration [k], and none else. *)
Definition signal_in (k : nat) (signum : Z) : schedule :=
  {| at_startup := [];
     in_iteration := fun n => if Nat.eqb n k then [signum] else [] |}.

Definition SIGINT : Z := 2.

(** The usage text, and getopt_long's own messages. *)
Definition is_usage (e : event) : bool :=
  match e with EvUsage _ => true | _ => false end.

Definition is_getopt_message (e : event) : bool :=
  match e with EvGetopt _ => true | _ => false end.

(** What argument parsing keeps true of the configuration: the rate is the
    initializer's 115200 or one of the speeds of [baudMap], the flow-control
    flag is 0 or 1, and the path fits [path[SERIAL_PATH_MAX]] with its
    terminator. *)
Definition config_ok {P : Platform} (cfg : config_t) : Prop :=
  (baud cfg = 115200 \/ In (baud cfg) speed_constants) /\
  (hwflow cfg = 0 \/ hwflow cfg = 1) /\
  (String.length (path cfg) <= SERIAL_PATH_MAX - 1)%nat.

(** A character [tolower] changes: an upper-case letter of ASCII. *)
Definition is_upper (c : ascii) : bool :=
  ((65 <=? nat_of_ascii c) && (nat_of_ascii c <=? 90))%nat.

Fixpoint has_upper (s : string) : bool :=
  match s with
  | EmptyString => false
  | String c rest => is_upper c || has_upper rest
  end.

(** The descriptor [platform_init] asks the system for: the master side of
    a new pseudo-terminal when the path is empty, the device otherwise. *)
Definition acquired {P : Platform} (env : os_env) (cfg : config_t) : Z :=
  if is_empty (path cfg) then os_posix_openpt env pty_flags
  else os_open env (path cfg) open_flags.

(** The layout of [c_cflag] that <termios.h> promises: parity, stop-bit and
    size bits are apart from the bits set after they are cleared, CS8 is a
    value of the size field, and RTS/CTS is apart from CREAD and CLOCAL. *)
Definition cflag_layout {P : Platform} : Prop :=
  Z.land PARENB (Z.lor (Z.lor CS8 CRTSCTS) (Z.lor CREAD CLOCAL)) = 0 /\
  Z.land CSTOPB (Z.lor (Z.lor CS8 CRTSCTS) (Z.lor CREAD CLOCAL)) = 0 /\
  Z.land CSIZE (Z.lor CRTSCTS (Z.lor CREAD CLOCAL)) = 0 /\
  Z.land CS8 CSIZE = CS8 /\
  Z.land CRTSCTS (Z.lor CREAD CLOCAL) = 0.

(** The attributes after the two calls that set the speeds. *)
Definition with_speeds (env : os_env) (cfg : config_t) (tty : termios)
  : termios :=
  os_cfsetispeed env (os_cfsetospeed env tty (baud cfg)) (baud cfg).

(** The calls and the report of the simulated mode, and the calls of the
    device mode. *)
Definition is_pty_call (e : event) : bool :=
  match e with
  | EvPosixOpenpt _ | EvGrantpt _ | EvUnlockpt _ | EvPtsname _
  | EvCreatedPty _ => true
  | _ => false
  end.

Definition is_device_call (e : event) : bool :=
  match e with
  | EvOpen _ _ | EvTcgetattr _ | EvTcsetattr _ _ _ => true
  | _ => false
  end.

(** No signal ever. *)
Definition no_signal : schedule :=
  {| at_startup := []; in_iteration := fun _ => [] |}.

(** The notices of [signalHandler] for a list of signals. *)
Definition notices (signums : list Z) : list event :=
  map EvCaughtSignal signums.

(** *** The elements of an argument list, by their text

    What an element of argv is when it is read where options are read.
    The long names are those of [longOpts]; a name may be cut short as far
    as it stays unambiguous ("--h" alone is ambiguous between hwflow and
    help). *)
Inductive element_kind : Type :=
| Operand        (* does not start with '-', or is "-" alone *)
| EndOfOptions   (* "--" *)
| WithValue      (* --tty=V, --baud=V, --hwflow=V, -tV, -bV, -fV *)
| BareLong       (* --tty, --baud, --hwflow *)
| BareShort      (* -t, -b, -f *)
| HelpRequest    (* --help; -h, alone or at the head of a cluster *)
| Unrecognized.  (* every other element that starts with '-' *)

(** The options that take a value: 't', 'b' and 'f'. *)
Definition takes_value (v : Z) : bool :=
  (v =? ch "t") || (v =? ch "b") || (v =? ch "f").

Definition kind_of (e : string) : element_kind :=
  match e with
  | String a (String c rest) =>
      if negb (Ascii.eqb a "-") then Operand
      else if Ascii.eqb c "-" then
        if is_empty rest then EndOfOptions
        else
          let (nm, arg) := split_name rest in
          match find_long longOpts nm with
          | LongFound p =>
              if takes_value (lo_val p)
              then match arg with Some _ => WithValue | None => BareLong end
              else match arg with
                   | Some _ => Unrecognized   (* --help=V *)
                   | None => HelpRequest
                   end
          | LongAmbiguous | LongUnknown => Unrecognized
          end
      else if takes_value (ch c)
      then if is_empty rest then BareShort else WithValue
      else if Ascii.eqb c "h" then HelpRequest
      else Unrecognized
  | _ => Operand
  end.



(** The output without the notices of [signalHandler]. *)
Definition is_notice (e : event) : bool :=
  match e with EvCaughtSignal _ => true | _ => false end.

Definition without_notices (out : list event) : list event :=
  filter (fun e => negb (is_notice e)) out.

(** Two states that differ in nothing but where the notices of the signals
    stand in the output. *)
Definition same_but_notices {M : Processor} (w w' : world) : Prop :=
  device w = device w' /\
  interrupted w = interrupted w' /\
  mctp w = mctp w' /\
  closed_fds (output w) = closed_fds (output w') /\
  without_notices (output w) = without_notices (output w').

(** * Properties *)

(** ** The scan of argv terminates *)

Lemma args_weight_cons (x : string) (l : list string) :
  args_weight (x :: l) = (S (String.length x) + args_weight l)%nat.
Proof. reflexivity. Qed.

Lemma args_weight_skipn_S (l : list string) (i : nat) :
  (args_weight (skipn (S i) l) <= args_weight (skipn i l))%nat.
Proof.
  revert i. induction l as [|x l IH]; intros i.
  - rewrite !skipn_nil. auto.
  - destruct i as [|i].
    + simpl skipn. rewrite args_weight_cons. lia.
    + change (skipn (S (S i)) (x :: l)) with (skipn (S i) l).
      change (skipn (S i) (x :: l)) with (skipn i l). apply IH.
Qed.

Lemma args_weight_skipn_le (l : list string) (i j : nat) :
  (i <= j)%nat -> (args_weight (skipn j l) <= args_weight (skipn i l))%nat.
Proof.
  induction 1 as [|j _ IH]; [lia|].
  pose proof (args_weight_skipn_S l j). lia.
Qed.

Lemma skipn_nth_error_cons (l : list string) (i : nat) (x : string) :
  nth_error l i = Some x -> skipn i l = x :: skipn (S i) l.
Proof.
  revert i. induction l as [|y l IH]; intros [|i] H; simpl in H; try discriminate.
  - inversion H. reflexivity.
  - apply IH in H. exact H.
Qed.

Lemma skip_nonoptions_ge (rest : list string) (i : nat) :
  (i <= skip_nonoptions rest i)%nat.
Proof.
  revert i. induction rest as [|s rest IH]; intros i; simpl; [lia|].
  destruct (NONOPTION_P s); [|lia].
  specialize (IH (S i)). lia.
Qed.

Ltac weigh :=
  unfold scan_weight;
  cbn [fst snd optind nextchar optarg String.length is_empty Nat.add];
  lia.

(** A short option leaves less to scan than its cluster and what follows
    the element. *)
Lemma short_option_progress (argv : list string) (optstring : string)
    (i : nat) (c : ascii) (rest : string) :
  (scan_weight argv (snd (fst (short_option argv optstring i c rest)))
   < S (String.length rest) + args_weight (skipn (S i) argv))%nat.
Proof.
  pose proof (args_weight_skipn_S argv (S i)) as Hs.
  unfold short_option.
  destruct (Ascii.eqb c ":" || Ascii.eqb c ";").
  { destruct rest; weigh. }
  destruct (optstring_find optstring c) as [temp|]; [|destruct rest; weigh].
  destruct (colons_after temp) as [|[|n]].
  - destruct rest; weigh.
  - destruct rest; cbn [is_empty]; [destruct (nth_error argv (S i))|]; weigh.
  - destruct rest; weigh.
Qed.

Lemma process_long_option_progress (argv : list string) (optstring : string)
    (longopts : list option_t) (i : nat) (text : string) :
  (scan_weight argv
     (snd (fst (process_long_option argv optstring longopts i text)))
   <= args_weight (skipn (S i) argv))%nat.
Proof.
  pose proof (args_weight_skipn_S argv (S i)) as Hs.
  unfold process_long_option.
  destruct (split_name text) as [nm arg].
  destruct (find_long longopts nm) as [p| |]; try weigh.
  destruct arg as [a|].
  - destruct (lo_has_arg p =? no_argument); weigh.
  - destruct (lo_has_arg p =? required_argument); [|weigh].
    destruct (nth_error argv (S i)); weigh.
Qed.

(** A call of getopt_long that does not answer -1 leaves less to scan. *)
Lemma getopt_long_progress (argv : list string) (optstring : string)
    (longopts : list option_t) (d : getopt_data) :
  fst (fst (getopt_long argv optstring longopts d)) <> -1 ->
  (scan_weight argv (snd (fst (getopt_long argv optstring longopts d)))
   < scan_weight argv d)%nat.
Proof.
  unfold getopt_long. destruct (nextchar d) as [|c rest] eqn:Hn.
  - set (i := skip_nonoptions (skipn (optind d) argv) (optind d)).
    assert (Hi : (optind d <= i)%nat) by apply skip_nonoptions_ge.
    pose proof (args_weight_skipn_le argv _ _ Hi) as Hle.
    unfold scan_weight at 2. rewrite Hn.
    destruct (nth_error argv i) as [elt|] eqn:He; [|simpl; congruence].
    rewrite (skipn_nth_error_cons _ _ _ He), args_weight_cons in Hle.
    destruct (NONOPTION_P elt); [simpl; congruence|].
    destruct elt as [|c0 [|c rest]]; try (simpl; congruence).
    destruct (Ascii.eqb c "-").
    + destruct (is_empty rest); [simpl; congruence|]. intros _.
      pose proof (process_long_option_progress argv optstring longopts i rest).
      cbn [String.length] in Hle. lia.
    + intros _.
      pose proof (short_option_progress argv optstring i c rest).
      cbn [String.length] in Hle. lia.
  - intros _. unfold scan_weight at 2. rewrite Hn.
    pose proof (short_option_progress argv optstring (optind d) c rest). lia.
Qed.

Lemma option_value_weight (argv : list string) (d : getopt_data) :
  (scan_weight argv (snd (option_value argv d)) <= scan_weight argv d)%nat.
Proof.
  unfold option_value. destruct (optarg d); [cbn [snd]; lia|].
  destruct (nth_error argv (optind d)) as [a|]; [|cbn [snd]; lia].
  destruct (starts_with "-" a); [cbn [snd]; lia|].
  unfold scan_weight; cbn [snd optind nextchar].
  pose proof (args_weight_skipn_S argv (optind d)).
  pose proof (args_weight_skipn_S argv (S (optind d))).
  destruct (nextchar d); lia.
Qed.

(** A pass of the loop that goes on leaves less to scan. *)
Lemma parseArgs_step_progress {P : Platform} (argv : list string)
    (s s' : parse_state) :
  parseArgs_step argv s = inr s' ->
  (scan_weight argv (fst (fst s')) < scan_weight argv (fst (fst s)))%nat.
Proof.
  destruct s as [[d cfg] out]. unfold parseArgs_step.
  pose proof (getopt_long_progress argv optstring_main longOpts d) as Hp.
  destruct (getopt_long argv optstring_main longOpts d) as [[opt d1] ev].
  simpl in Hp.
  pose proof (option_value_weight argv d1) as Hv.
  destruct (opt =? -1) eqn:E; [discriminate|].
  apply Z.eqb_neq in E. specialize (Hp E).
  destruct (option_value argv d1) as [val d2]. simpl in Hv.
  destruct (opt =? ch "t"); [destruct val; intros H; inversion H; simpl; lia|].
  destruct (opt =? ch "b").
  { destruct val; [destruct (baudRateFromString (Some s))|];
      intros H; inversion H; simpl; lia. }
  destruct (opt =? ch "f").
  { destruct val; [destruct (parseBool (Some s))|];
      intros H; inversion H; simpl; lia. }
  discriminate.
Qed.

(** With more passes allowed than there is left to scan, the loop returns. *)
Lemma parseArgs_loop_returns {P : Platform} (argv : list string) (fuel : nat) :
  forall s, (scan_weight argv (fst (fst s)) < fuel)%nat ->
            exists r, parseArgs_loop fuel argv s = Some r.
Proof.
  induction fuel as [|fuel IH]; intros s Hs; [lia|].
  simpl. destruct (parseArgs_step argv s) as [r|s'] eqn:E; [eauto|].
  apply parseArgs_step_progress in E. apply IH. lia.
Qed.

Lemma parseArgs_loop_more_fuel {P : Platform} (argv : list string)
    (fuel fuel' : nat) :
  forall s r, parseArgs_loop fuel argv s = Some r -> (fuel <= fuel')%nat ->
              parseArgs_loop fuel' argv s = Some r.
Proof.
  revert fuel'. induction fuel as [|fuel IH]; intros fuel' s r H Hle;
    [discriminate|].
  destruct fuel' as [|fuel']; [lia|].
  simpl in *. destruct (parseArgs_step argv s); [exact H|].
  apply (IH fuel'); [exact H | lia].
Qed.

(** parseArgs always returns. *)
Lemma parseArgs_returns {P : Platform} (argv : list string) (cfg : config_t) :
  exists r, parseArgs argv cfg = Some r.
Proof.
  apply parseArgs_loop_returns.
  pose proof (args_weight_skipn_S argv 0) as H.
  change (skipn 0 argv) with argv in H.
  unfold scan_weight, getopt_start. cbn [fst nextchar optind]. lia.
Qed.


(** ** The defaults of the configuration *)

(** C6, as stated, fails: the baud rate [serial_device] starts with is not
    the highest rate of the supported set, neither as the number 230400 nor
    as the termios speed B230400 (shown for the constants of Linux). *)
Lemma default_baud_is_not_highest :
  (baud serial_device =? @highest_rate linux) = false /\
  (baud serial_device =? @B230400 linux) = false /\
  @highest_rate linux = 230400.
Proof. repeat split; reflexivity. Qed.

(** C6, amended: before argument parsing the configuration holds the baud
    rate 115200, which belongs to the supported set but is not its highest
    member (that is 230400), flow control off, the empty path and the
    closed handle -1. *)
Theorem serial_device_defaults (P : Platform) :
  baud serial_device = 115200 /\
  hwflow serial_device = 0 /\
  path serial_device = "" /\
  fd serial_device = -1 /\
  In (baud serial_device) supported_rates /\
  highest_rate = 230400 /\
  baud serial_device < highest_rate.
Proof.
  repeat split; try reflexivity.
  cbv [supported_rates baud_tokens baudMap map fst flat_map rate_of_token].
  vm_compute. tauto.
Qed.

(** ** baudRateFromString *)

Lemma baud_lookup_none {P : Platform} (s : string) :
  ~ In s baud_tokens -> baud_lookup baudMap s = None.
Proof.
  unfold baud_tokens, baudMap. cbn [map fst baud_lookup]. intros H.
  repeat match goal with
         | |- context [String.eqb s ?t] =>
             destruct (String.eqb_spec s t) as [->|_];
             [exfalso; apply H; cbn; tauto|]
         end.
  reflexivity.
Qed.

Lemma baudRateFromString_unrecognized {P : Platform} (s : string) :
  ~ In s baud_tokens ->
  baudRateFromString (Some s) = (B115200, [EvWarnBaud s]).
Proof.
  intros H. unfold baudRateFromString. rewrite (baud_lookup_none s H).
  reflexivity.
Qed.

(** The case 'b' of the switch, when a value is at hand. *)
Lemma parseArgs_step_baud {P : Platform} (argv : list string)
    (d d1 d2 : getopt_data) (cfg : config_t) (out ev : list event)
    (v : string) :
  getopt_long argv optstring_main longOpts d = (ch "b", d1, ev) ->
  option_value argv d1 = (Some v, d2) ->
  parseArgs_step argv (d, cfg, out) =
  inr (d2, set_baud cfg (fst (baudRateFromString (Some v))),
       (out ++ ev) ++ snd (baudRateFromString (Some v))).
Proof.
  intros Hg Hv. unfold parseArgs_step. rewrite Hg.
  change (ch "b" =? -1) with false. change (ch "b" =? ch "t") with false.
  change (ch "b" =? ch "b") with true. cbv iota. rewrite Hv.
  destruct (baudRateFromString (Some v)). reflexivity.
Qed.

(** The pass in which getopt_long answers -1 ends the loop with 1. *)
Lemma parseArgs_step_end {P : Platform} (argv : list string)
    (d d1 : getopt_data) (cfg : config_t) (out ev : list event) :
  getopt_long argv optstring_main longOpts d = (-1, d1, ev) ->
  parseArgs_step argv (d, cfg, out) = inl (1, cfg, out ++ ev).
Proof. intros Hg. unfold parseArgs_step. rewrite Hg. reflexivity. Qed.

(** A single option with an unrecognized rate: two passes, success. *)
Lemma parseArgs_one_baud {P : Platform} (argv : list string)
    (d1 d2 d3 : getopt_data) (cfg : config_t) (s : string) :
  ~ In s baud_tokens ->
  getopt_long argv optstring_main longOpts getopt_start = (ch "b", d1, []) ->
  option_value argv d1 = (Some s, d2) ->
  getopt_long argv optstring_main longOpts d2 = (-1, d3, []) ->
  parseArgs argv cfg = Some (1, set_baud cfg B115200, [EvWarnBaud s]).
Proof.
  intros Hs Hg Hv Hend.
  destruct (parseArgs_returns argv cfg) as [r Hr]. rewrite Hr.
  unfold parseArgs in Hr.
  apply (parseArgs_loop_more_fuel argv _ (S (S (args_weight argv)))) in Hr;
    [|lia].
  assert (H2 : parseArgs_loop 2 argv (getopt_start, cfg, []) =
               Some (1, set_baud cfg B115200, [EvWarnBaud s])).
  { cbn [parseArgs_loop].
    rewrite (parseArgs_step_baud argv _ _ _ cfg [] [] s Hg Hv).
    rewrite (baudRateFromString_unrecognized s Hs). cbn [fst snd app].
    rewrite (parseArgs_step_end argv _ _ _ _ _ Hend). reflexivity. }
  apply (parseArgs_loop_more_fuel argv _ (S (S (args_weight argv)))) in H2;
    [|lia].
  congruence.
Qed.

(** C7: baudRateFromString sends the seven tokens of the table, in order,
    onto the seven speeds, without a warning; each token spells the rate of
    its speed; when the speeds are distinct the mapping is injective on the
    tokens; every other token gives B115200, the default, with a warning,
    and parseArgs still returns 1 for it, however the token is passed. *)
Theorem baudRateFromString_mapping (P : Platform)
    (Hdistinct : NoDup speed_constants) :
  map (fun t => baudRateFromString (Some t)) baud_tokens
  = map (fun v => (v, [])) speed_constants /\
  map rate_of_token baud_tokens
  = map Some [4800; 9600; 19200; 38400; 57600; 115200; 230400] /\
  (forall s t, In s baud_tokens -> In t baud_tokens ->
     fst (baudRateFromString (Some s)) = fst (baudRateFromString (Some t)) ->
     s = t) /\
  (forall s, ~ In s baud_tokens ->
     baudRateFromString (Some s) = (B115200, [EvWarnBaud s]) /\
     forall prog cfg,
       let ok := Some (1, set_baud cfg B115200, [EvWarnBaud s]) in
       parseArgs [prog; "-b"; s] cfg = ok /\
       parseArgs [prog; ("--baud=" ++ s)%string] cfg = ok /\
       (starts_with "-" s = false -> parseArgs [prog; "--baud"; s] cfg = ok)).
Proof.
  split; [reflexivity|]. split; [reflexivity|]. split.
  - intros s t Hs Ht.
    unfold speed_constants in Hdistinct.
    repeat match goal with
           | H : NoDup (_ :: _) |- _ => inversion H; clear H; subst
           end.
    cbn [In] in *.
    unfold baud_tokens, baudMap in Hs, Ht. cbn [map fst In] in Hs, Ht.
    intuition (subst; try reflexivity; cbn in *; exfalso; intuition congruence).
  - intros s Hs. split; [apply baudRateFromString_unrecognized, Hs|].
    intros prog cfg ok. subst ok. split; [|split].
    + eapply parseArgs_one_baud; [exact Hs|reflexivity|reflexivity|reflexivity].
    + eapply parseArgs_one_baud; [exact Hs|reflexivity|reflexivity|reflexivity].
    + intros Hd.
      eapply (parseArgs_one_baud _ _
                {| optind := 3; optarg := None; nextchar := "" |});
        [exact Hs|reflexivity| |reflexivity].
      unfold option_value. cbn. rewrite Hd.
      reflexivity.
Qed.

Lemma linux_speeds_distinct : NoDup (@speed_constants linux).
Proof.
  unfold speed_constants. cbn.
  repeat (constructor; [cbn; intuition discriminate|]). constructor.
Qed.

(** C7 on Linux: "9600" gives B9600 = 13 and no warning, "bogus" gives
    B115200 = 4098 with the warning, and [--baud bogus] parses. *)
Lemma baudRateFromString_mapping_linux :
  NoDup (@speed_constants linux) /\
  @baudRateFromString linux (Some "9600") = (13, []) /\
  @baudRateFromString linux (Some "bogus") = (4098, [EvWarnBaud "bogus"]) /\
  @parseArgs linux ["prog"; "--baud"; "bogus"] serial_device
  = Some (1, set_baud serial_device 4098, [EvWarnBaud "bogus"]).
Proof.
  pose proof (baudRateFromString_mapping linux linux_speeds_distinct)
    as [_ [_ [_ H]]].
  destruct (H "bogus") as [Hw Hp].
  { cbn. intuition discriminate. }
  destruct (Hp "prog" serial_device) as [_ [_ Hlong]].
  split; [exact linux_speeds_distinct|].
  split; [reflexivity|]. split; [exact Hw|]. apply Hlong. reflexivity.
Defined.

(** ** parseBool *)

Lemma toLower_fixes_tokens (t : string) :
  In t (true_tokens ++ false_tokens) -> toLower t = t.
Proof.
  cbn. intuition (subst; reflexivity).
Qed.

(** C8: parseBool gives true for "TRUE", "true", "1", "yes", "YES" and for
    every other casing of true, 1 and yes; false for "FALSE", "false",
    "0", "no", "NO" and every other casing of false, 0 and no, all without
    a warning; and false with a warning for every other token. *)
Theorem parseBool_tokens :
  Forall (fun s => parseBool (Some s) = (1, []))
         ["TRUE"; "true"; "1"; "yes"; "YES"] /\
  Forall (fun s => parseBool (Some s) = (0, []))
         ["FALSE"; "false"; "0"; "no"; "NO"] /\
  (forall s t, In t true_tokens -> same_casing s t ->
               parseBool (Some s) = (1, [])) /\
  (forall s t, In t false_tokens -> same_casing s t ->
               parseBool (Some s) = (0, [])) /\
  (forall s, (forall t, In t (true_tokens ++ false_tokens) ->
                        ~ same_casing s t) ->
             parseBool (Some s) = (0, [EvWarnBool (toLower s)])).
Proof.
  split; [repeat constructor|]. split; [repeat constructor|].
  split; [|split].
  - intros s t Ht Hc. unfold same_casing in Hc.
    rewrite (toLower_fixes_tokens t) in Hc by (apply in_or_app; auto).
    unfold parseBool.
    cbn in Ht. destruct Ht as [<-|[<-|[<-|[]]]]; rewrite Hc; reflexivity.
  - intros s t Ht Hc. unfold same_casing in Hc.
    rewrite (toLower_fixes_tokens t) in Hc by (apply in_or_app; auto).
    unfold parseBool.
    cbn in Ht. destruct Ht as [<-|[<-|[<-|[]]]]; rewrite Hc; reflexivity.
  - intros s H. unfold parseBool.
    assert (Hn : forall t, In t (true_tokens ++ false_tokens) ->
                           String.eqb (toLower s) t = false).
    { intros t Ht. apply String.eqb_neq. intros E. apply (H t Ht).
      unfold same_casing. rewrite (toLower_fixes_tokens t Ht). exact E. }
    rewrite !Hn by (cbn; tauto). reflexivity.
Qed.

(** ** parseArgs keeps what it has set when it fails *)

(** C10: parsing is not atomic.  For "--hwflow TRUE --help" parseArgs
    returns 0 with [hwflow] already set, so the configuration differs from
    the defaults; for "--baud 9600 --help" it returns 0 with [baud] already
    B9600, which differs from the default wherever B9600 is not 115200. *)
Theorem parseArgs_not_atomic (P : Platform) :
  (exists argv cfg out,
     parseArgs argv serial_device = Some (0, cfg, out) /\
     cfg <> serial_device) /\
  parseArgs ["prog"; "--hwflow"; "TRUE"; "--help"] serial_device
  = Some (0, set_hwflow serial_device 1, [EvUsage (Some "prog")]) /\
  parseArgs ["prog"; "--baud"; "9600"; "--help"] serial_device
  = Some (0, set_baud serial_device B9600, [EvUsage (Some "prog")]) /\
  (B9600 <> 115200 -> set_baud serial_device B9600 <> serial_device).
Proof.
  assert (H : parseArgs ["prog"; "--hwflow"; "TRUE"; "--help"] serial_device
              = Some (0, set_hwflow serial_device 1, [EvUsage (Some "prog")]))
    by reflexivity.
  split; [|split; [exact H|split; [reflexivity|]]].
  - exists ["prog"; "--hwflow"; "TRUE"; "--help"], (set_hwflow serial_device 1),
      [EvUsage (Some "prog")].
    split; [exact H|discriminate].
  - intros Hb E. apply Hb. apply (f_equal baud) in E. exact E.
Qed.

(** C10 on Linux, for the argument list "--baud 9600 --help". *)
Lemma parseArgs_not_atomic_linux :
  @parseArgs linux ["prog"; "--baud"; "9600"; "--help"] serial_device
  = Some (0, set_baud serial_device 13, [EvUsage (Some "prog")]) /\
  set_baud serial_device 13 <> serial_device.
Proof.
  destruct (parseArgs_not_atomic linux) as [_ [_ [Hp Hne]]].
  split; [exact Hp|]. apply Hne. discriminate.
Defined.

(** C8 at "tRuE", a casing of true, and at "Maybe", which is no casing of
    any of the six tokens. *)
Lemma parseBool_tokens_mixed_case :
  same_casing "tRuE" "true" /\
  parseBool (Some "tRuE") = (1, []) /\
  parseBool (Some "Maybe") = (0, [EvWarnBool "maybe"]).
Proof.
  destruct parseBool_tokens as [_ [_ [Ht [_ Hw]]]].
  split; [reflexivity|]. split.
  - apply (Ht "tRuE" "true"); [left; reflexivity|reflexivity].
  - apply (Hw "Maybe"). intros t Hin Hc. unfold same_casing in Hc.
    cbn in Hin.
    destruct Hin as [<-|[<-|[<-|[<-|[<-|[<-|[]]]]]]]; discriminate Hc.
Defined.

(** ** The readiness queries *)

(** C4: with the handle closed, both readiness queries answer 0 with no
    system call at all; with the handle open, each makes exactly one call
    of select, on that handle alone, with a wait of zero. *)
Theorem readiness_queries (env : os_env) (cfg : config_t) :
  (fd cfg = -1 ->
   platform_serial_has_data env cfg = (0, []) /\
   platform_serial_can_write env cfg = (0, [])) /\
  (fd cfg <> -1 ->
   snd (platform_serial_has_data env cfg)
   = [EvSelect (fd cfg + 1) (Some [fd cfg]) None None (Some (0, 0))] /\
   snd (platform_serial_can_write env cfg)
   = [EvSelect (fd cfg + 1) None (Some [fd cfg]) None (Some (0, 0))]) /\
  select_timeouts (snd (platform_serial_has_data env cfg))
  = (if fd cfg =? -1 then [] else [Some (0, 0)]) /\
  select_timeouts (snd (platform_serial_can_write env cfg))
  = (if fd cfg =? -1 then [] else [Some (0, 0)]).
Proof.
  unfold platform_serial_has_data, platform_serial_can_write.
  destruct (Z.eqb_spec (fd cfg) (-1)) as [E|E].
  - repeat split; intros; try reflexivity; contradiction.
  - destruct (os_select env (fd cfg + 1) (Some [fd cfg]) None None
                (Some (0, 0))) as [[r1 a1] b1].
    destruct (os_select env (fd cfg + 1) None (Some [fd cfg]) None
                (Some (0, 0))) as [[r2 a2] b2].
    repeat split; intros; try reflexivity; contradiction.
Qed.

(** C4 at the configuration the process starts with, whose handle is -1,
    and at an open handle. *)
Lemma readiness_queries_closed_start :
  fd serial_device = -1 /\
  platform_serial_has_data os_fine serial_device = (0, []) /\
  platform_serial_can_write os_fine serial_device = (0, []) /\
  set_fd serial_device 3 = set_fd serial_device 3 /\
  snd (platform_serial_has_data os_fine (set_fd serial_device 3))
  = [EvSelect 4 (Some [3]) None None (Some (0, 0))].
Proof.
  destruct (readiness_queries os_fine serial_device) as [Hc _].
  destruct (readiness_queries os_fine (set_fd serial_device 3))
    as [_ [Ho _]].
  destruct (Hc eq_refl) as [H1 H2].
  destruct (Ho ltac:(discriminate)) as [H3 _].
  repeat split; assumption.
Defined.

(** ** platform_init *)

Lemma substring_all (s : string) (n : nat) :
  (String.length s <= n)%nat -> substring 0 n s = s.
Proof.
  revert n. induction s as [|c s IH]; intros n H.
  - destruct n; reflexivity.
  - destruct n as [|n]; [simpl in H; lia|].
    simpl. rewrite IH; [reflexivity|simpl in H; lia].
Qed.

Lemma substring_nonempty (s : string) (n : nat) :
  s <> "" -> (0 < n)%nat -> substring 0 n s <> "".
Proof.
  destruct s as [|c s]; [congruence|].
  destruct n as [|n]; [lia|]. simpl. discriminate.
Qed.

Lemma is_empty_true (s : string) : is_empty s = true <-> s = "".
Proof. destruct s; simpl; split; congruence. Qed.

(** C2: with an empty path, an initialization that reports no failure
    leaves in [fd] the descriptor posix_openpt answered, which is the master
    side and not -1, and in [path] the name ptsname gave for the slave side,
    cut to what the field holds; the name of a device is not empty, so the
    path is not empty afterwards. *)
Theorem platform_init_pty (P : Platform) (env : os_env) (cfg : config_t) :
  path cfg = "" ->
  perrors (snd (platform_init env cfg)) = [] ->
  (forall f name, os_ptsname env f = Some name -> name <> "") ->
  (1 < SERIAL_PATH_MAX)%nat ->
  let cfg' := fst (platform_init env cfg) in
  let master_fd := os_posix_openpt env pty_flags in
  fd cfg' = master_fd /\
  fd cfg' <> -1 /\
  In (EvPosixOpenpt pty_flags) (snd (platform_init env cfg)) /\
  (exists slave_name,
     os_ptsname env master_fd = Some slave_name /\
     path cfg' = strncpy_path slave_name /\
     ((String.length slave_name < SERIAL_PATH_MAX)%nat ->
      path cfg' = slave_name) /\
     In (EvCreatedPty (path cfg')) (snd (platform_init env cfg))) /\
  path cfg' <> "" /\
  baud cfg' = baud cfg /\ hwflow cfg' = hwflow cfg.
Proof.
  intros Hp Hok Hname Hmax. unfold platform_init in *. rewrite Hp in *.
  cbn [is_empty] in *.
  destruct (Z.eqb_spec (os_posix_openpt env pty_flags) (-1)) as [E|E];
    [discriminate Hok|].
  destruct (os_grantpt env (os_posix_openpt env pty_flags) =? -1);
    [discriminate Hok|].
  destruct (os_unlockpt env (os_posix_openpt env pty_flags) =? -1);
    [discriminate Hok|].
  destruct (os_ptsname env (os_posix_openpt env pty_flags)) as [name|] eqn:En;
    [|discriminate Hok].
  cbn [fst snd set_fd set_path fd path baud hwflow].
  repeat split; try assumption; try reflexivity.
  - cbn. tauto.
  - exists name. repeat split.
    + intros Hl. unfold strncpy_path. apply substring_all. lia.
    + cbn. tauto.
  - unfold strncpy_path. apply substring_nonempty; [|lia].
    exact (Hname _ _ En).
Qed.

(** C2 on Linux, in an environment that hands out descriptor 3 and the
    slave name /dev/pts/7. *)
Lemma platform_init_pty_linux :
  @platform_init linux os_fine serial_device
  = ({| baud := 115200; hwflow := 0; path := "/dev/pts/7"; fd := 3 |},
     [EvInitInfo "(pty)" 115200 false; EvPosixOpenpt 258; EvGrantpt 3;
      EvUnlockpt 3; EvPtsname 3; EvCreatedPty "/dev/pts/7"]) /\
  fd (fst (@platform_init linux os_fine serial_device)) <> -1 /\
  path (fst (@platform_init linux os_fine serial_device)) <> "".
Proof.
  assert (Hn : forall (f : Z) (name : string),
             os_ptsname os_fine f = Some name -> name <> "").
  { intros f name H. inversion H. discriminate. }
  assert (Hm : (1 < @SERIAL_PATH_MAX linux)%nat).
  { apply Nat.ltb_lt. vm_compute. reflexivity. }
  destruct (platform_init_pty linux os_fine serial_device eq_refl eq_refl Hn Hm)
    as [_ [Hfd [_ [_ [Hpath _]]]]].
  split; [vm_compute; reflexivity|]. split; assumption.
Defined.

(** C3: [platform_init] is entered with the handle closed ([serial_device]
    starts with -1 and nothing before mctp_init assigns it).  Whichever
    step the environment fails, the function returns, with the handle -1
    and a diagnostic printed. *)
Theorem platform_init_failure (P : Platform) (env : os_env) (cfg : config_t)
    (s : init_step) :
  fd cfg = -1 ->
  step_fails env cfg s ->
  exists cfg' out,
    platform_init env cfg = (cfg', out) /\
    fd cfg' = -1 /\
    perrors out <> [].
Proof.
  intros Hfd Hs.
  destruct (platform_init env cfg) as [cfg' out] eqn:E.
  exists cfg', out. split; [reflexivity|].
  unfold platform_init in E.
  destruct (is_empty (path cfg)) eqn:Hp.
  - apply is_empty_true in Hp.
    assert (Hpty : s = PairCreation \/ s = PermissionGrant \/ s = Unlock
                   \/ s = SlaveName).
    { destruct s; cbn in Hs; tauto. }
    destruct (Z.eqb_spec (os_posix_openpt env pty_flags) (-1)) as [E1|E1].
    { inversion E; subst. split; [exact Hfd|discriminate]. }
    destruct (Z.eqb_spec (os_grantpt env (os_posix_openpt env pty_flags)) (-1))
      as [E2|E2].
    { inversion E; subst. split; [exact Hfd|discriminate]. }
    destruct (Z.eqb_spec (os_unlockpt env (os_posix_openpt env pty_flags)) (-1))
      as [E3|E3].
    { inversion E; subst. split; [exact Hfd|discriminate]. }
    destruct (os_ptsname env (os_posix_openpt env pty_flags)) as [name|] eqn:E4.
    2:{ inversion E; subst. split; [exact Hfd|discriminate]. }
    exfalso. destruct Hpty as [ -> | [ -> | [ -> | -> ] ] ]; cbn in Hs;
      destruct Hs as [_ Hs]; congruence.
  - assert (Hne : path cfg <> "").
    { intros H. apply is_empty_true in H. congruence. }
    assert (Hdev : s = DeviceOpen \/ s = AttributeRead \/ s = AttributeWrite).
    { destruct s; cbn in Hs; tauto. }
    cbn [set_fd fd path] in E.
    destruct (Z.eqb_spec (os_open env (path cfg) open_flags) (-1)) as [E1|E1].
    { inversion E; subst. split; [exact E1|discriminate]. }
    destruct (os_tcgetattr env (os_open env (path cfg) open_flags))
      as [r tty] eqn:Eg.
    destruct (Z.eqb_spec r 0) as [E2|E2]; cbn [negb] in E.
    2:{ inversion E; subst. split; [reflexivity|].
        cbn. discriminate. }
    destruct (Z.eqb_spec
                (os_tcsetattr env (os_open env (path cfg) open_flags) TCSANOW
                   (configure_tty env
                      (set_fd cfg (os_open env (path cfg) open_flags)) tty))
                0)
      as [E3|E3]; cbn [negb] in E.
    2:{ inversion E; subst. split; [reflexivity|].
        cbn. discriminate. }
    exfalso. destruct Hdev as [ -> | [ -> | -> ] ]; cbn in Hs; destruct Hs as [_ Hs].
    + congruence.
    + rewrite Eg in Hs. cbn in Hs. congruence.
    + rewrite Eg in Hs. cbn [snd] in Hs. congruence.
Qed.

(** [platform_init] at each of the seven steps failing, on Linux. *)
Example platform_init_failing_steps :
  let dev := set_path serial_device "/dev/ttyS0" in
  map (fun env => fd (fst (@platform_init linux env serial_device)))
      [os_sample (-1) 0 0 (Some "/dev/pts/7") 3 0 0;
       os_sample 3 (-1) 0 (Some "/dev/pts/7") 3 0 0;
       os_sample 3 0 (-1) (Some "/dev/pts/7") 3 0 0;
       os_sample 3 0 0 None 3 0 0]
  = [-1; -1; -1; -1] /\
  map (fun env => fd (fst (@platform_init linux env dev)))
      [os_sample 3 0 0 None (-1) 0 0;
       os_sample 3 0 0 None 3 (-1) 0;
       os_sample 3 0 0 None 3 0 (-1)]
  = [-1; -1; -1] /\
  map (fun env => perrors (snd (@platform_init linux env serial_device)))
      [os_sample (-1) 0 0 (Some "/dev/pts/7") 3 0 0;
       os_sample 3 (-1) 0 (Some "/dev/pts/7") 3 0 0;
       os_sample 3 0 (-1) (Some "/dev/pts/7") 3 0 0;
       os_sample 3 0 0 None 3 0 0]
  = [["posix_openpt"]; ["grantpt/unlockpt"]; ["grantpt/unlockpt"];
     ["ptsname"]] /\
  map (fun env => perrors (snd (@platform_init linux env dev)))
      [os_sample 3 0 0 None (-1) 0 0;
       os_sample 3 0 0 None 3 (-1) 0;
       os_sample 3 0 0 None 3 0 (-1)]
  = [["open"]; ["tcgetattr"]; ["tcsetattr"]].
Proof. repeat split. Qed.

(** C3 on Linux, when no pseudo-terminal can be had. *)
Lemma platform_init_failure_no_pty :
  fd serial_device = -1 /\
  @step_fails linux os_no_pty serial_device PairCreation /\
  exists cfg' out,
    @platform_init linux os_no_pty serial_device = (cfg', out) /\
    fd cfg' = -1 /\ perrors out <> [].
Proof.
  assert (Hs : @step_fails linux os_no_pty serial_device PairCreation).
  { split; reflexivity. }
  split; [reflexivity|]. split; [exact Hs|].
  exact (platform_init_failure linux os_no_pty serial_device PairCreation
           eq_refl Hs).
Defined.

(** ** What parseArgs leaves alone *)

Lemma forallb_app_true {A : Type} (f : A -> bool) (a b : list A) :
  forallb f a = true -> forallb f b = true -> forallb f (a ++ b) = true.
Proof. intros Ha Hb. rewrite forallb_app, Ha, Hb. reflexivity. Qed.

Lemma print_errors_parser (optstring : string) (e : getopt_error) :
  forallb is_parser_event (print_errors optstring e) = true.
Proof. unfold print_errors. destruct (starts_with ":" optstring); reflexivity. Qed.

Lemma getopt_long_parser_events (argv : list string) (optstring : string)
    (longopts : list option_t) (d : getopt_data) :
  forallb is_parser_event (snd (getopt_long argv optstring longopts d)) = true.
Proof.
  assert (Hshort : forall i c rest,
             forallb is_parser_event
               (snd (short_option argv optstring i c rest)) = true).
  { intros i c rest. unfold short_option.
    destruct (Ascii.eqb c ":" || Ascii.eqb c ";");
      [apply print_errors_parser|].
    destruct (optstring_find optstring c) as [temp|];
      [|apply print_errors_parser].
    destruct (colons_after temp) as [|[|n]]; try reflexivity;
      destruct (is_empty rest); try reflexivity.
    destruct (nth_error argv (S i)); [reflexivity|apply print_errors_parser]. }
  unfold getopt_long. destruct (nextchar d) as [|c rest]; [|apply Hshort].
  cbv zeta.
  destruct (nth_error argv _) as [elt|]; [|reflexivity].
  destruct (NONOPTION_P elt); [reflexivity|].
  destruct elt as [|c0 [|c rest]]; try reflexivity.
  destruct (Ascii.eqb c "-"); [|apply Hshort].
  destruct (is_empty rest); [reflexivity|].
  unfold process_long_option. destruct (split_name rest) as [nm arg].
  destruct (find_long longopts nm) as [q| |];
    try apply print_errors_parser.
  destruct arg as [a|].
  - destruct (lo_has_arg q =? no_argument);
      [apply print_errors_parser|reflexivity].
  - destruct (lo_has_arg q =? required_argument); [|reflexivity].
    destruct (nth_error argv _); [reflexivity|apply print_errors_parser].
Qed.

Lemma baudRateFromString_parser_events {P : Platform} (v : option string) :
  forallb is_parser_event (snd (baudRateFromString v)) = true.
Proof.
  destruct v as [s|]; [|reflexivity]. unfold baudRateFromString.
  destruct (baud_lookup baudMap s); reflexivity.
Qed.

Lemma parseBool_parser_events (v : option string) :
  forallb is_parser_event (snd (parseBool v)) = true.
Proof.
  destruct v as [s|]; [|reflexivity]. unfold parseBool.
  destruct (_ || _); [reflexivity|]. destruct (_ || _); reflexivity.
Qed.

(** A pass of the loop keeps the handle, and prints parser events only. *)
Lemma parseArgs_step_keeps {P : Platform} (argv : list string)
    (d : getopt_data) (cfg : config_t) (out : list event) :
  forallb is_parser_event out = true ->
  match parseArgs_step argv (d, cfg, out) with
  | inl (r, cfg', out') =>
      cfg' = cfg /\ forallb is_parser_event out' = true /\
      ((r = 1 /\ getopt_answer argv (d, cfg, out) = -1) \/
       (r = 0 /\ exists pre,
           out' = pre ++ [EvUsage (nth_error argv 0)]))
  | inr (d', cfg', out') =>
      fd cfg' = fd cfg /\ forallb is_parser_event out' = true
  end.
Proof.
  intros Hout. unfold parseArgs_step, getopt_answer. cbn [fst].
  pose proof (getopt_long_parser_events argv optstring_main longOpts d) as Hev.
  destruct (getopt_long argv optstring_main longOpts d) as [[opt d1] ev].
  cbn [snd fst] in *.
  assert (H1 : forallb is_parser_event (out ++ ev) = true)
    by (apply forallb_app_true; assumption).
  destruct (Z.eqb_spec opt (-1)) as [E|E]; [auto|].
  destruct (option_value argv d1) as [val d2].
  destruct (opt =? ch "t"); [destruct val; auto|].
  destruct (opt =? ch "b").
  { destruct val as [v|]; [|auto].
    pose proof (baudRateFromString_parser_events (Some v)) as Hb.
    destruct (baudRateFromString (Some v)) as [b w]. cbn [snd] in Hb.
    split; [reflexivity|apply forallb_app_true; assumption]. }
  destruct (opt =? ch "f").
  { destruct val as [v|]; [|auto].
    pose proof (parseBool_parser_events (Some v)) as Hb.
    destruct (parseBool (Some v)) as [b w]. cbn [snd] in Hb.
    split; [reflexivity|apply forallb_app_true; assumption]. }
  split; [reflexivity|]. split; [apply forallb_app_true; auto|].
  right. split; [reflexivity|]. exists (out ++ ev). reflexivity.
Qed.

Lemma parseArgs_loop_keeps {P : Platform} (argv : list string) (fuel : nat) :
  forall d cfg out r cfg' out',
    forallb is_parser_event out = true ->
    parseArgs_loop fuel argv (d, cfg, out) = Some (r, cfg', out') ->
    fd cfg' = fd cfg /\ forallb is_parser_event out' = true /\
    (r = 1 \/ (r = 0 /\ exists pre, out' = pre ++ [EvUsage (nth_error argv 0)])).
Proof.
  induction fuel as [|fuel IH]; intros d cfg out r cfg' out' Hout H;
    [discriminate|].
  cbn [parseArgs_loop] in H.
  pose proof (parseArgs_step_keeps argv d cfg out Hout) as Hk.
  destruct (parseArgs_step argv (d, cfg, out)) as [[[r0 c0] o0]|[[d1 c1] o1]].
  - inversion H; subst. destruct Hk as [-> [Ho Hr]].
    split; [reflexivity|]. split; [exact Ho|]. tauto.
  - destruct Hk as [Hfd Ho].
    destruct (IH _ _ _ _ _ _ Ho H) as [Hfd' Hrest].
    split; [congruence|exact Hrest].
Qed.


Lemma parser_event_not_transport (out : list event) :
  forallb is_parser_event out = true ->
  forallb (fun e => negb (is_transport_event e)) out = true /\
  existsb is_serial_banner out = false.
Proof.
  induction out as [|e out IH]; [split; reflexivity|].
  cbn [forallb existsb]. intros H. apply andb_prop in H as [He Ho].
  destruct (IH Ho) as [H1 H2]. rewrite H1, H2.
  destruct e; try discriminate He; split; reflexivity.
Qed.

(** ** The device main reports *)

(** C9: whenever parseArgs succeeds, the handle is still -1 where main
    reports the device in use, whatever the arguments set (a path given by
    --tty included): main prints the report of the simulated device, and
    the report "Using serial device" is not among what has been printed. *)
Theorem main_reports_simulated_device (P : Platform) (M : Processor)
    (argv : list string) (ok : Z) (cfg : config_t) (out : list event) :
  parseArgs argv serial_device = Some (ok, cfg, out) ->
  ok <> 0 ->
  fd cfg = -1 /\
  (fd cfg >? -1) = false /\
  main_startup argv
  = Some (inr {| device := cfg; interrupted := 0; mctp := mctp_start;
                 output := out ++ [EvUsingPty] |}) /\
  existsb is_serial_banner (out ++ [EvUsingPty]) = false.
Proof.
  intros Hp Hok.
  unfold parseArgs in Hp.
  destruct (parseArgs_loop_keeps argv _ _ _ [] _ _ _ eq_refl Hp)
    as [Hfd [Ho _]].
  fold (parseArgs argv serial_device) in Hp.
  change (fd serial_device) with (-1) in Hfd.
  split; [exact Hfd|]. split; [rewrite Hfd; reflexivity|]. split.
  - unfold main_startup. change (device world_start) with serial_device.
    rewrite Hp. destruct (Z.eqb_spec ok 0) as [E|_]; [contradiction|].
    rewrite Hfd. reflexivity.
  - rewrite existsb_app. destruct (parser_event_not_transport out Ho) as [_ ->].
    reflexivity.
Qed.

(** C9 on Linux, for a start with --tty: the path is set, the handle is
    not, and the simulated device is what main reports. *)
Lemma main_reports_simulated_device_tty :
  @parseArgs linux ["prog"; "--tty"; "/dev/ttyUSB0"] serial_device
  = Some (1, set_path serial_device "/dev/ttyUSB0", []) /\
  1 <> 0 /\
  @main_startup linux idle_processor ["prog"; "--tty"; "/dev/ttyUSB0"]
  = Some (inr (@Build_world idle_processor
                 (set_path serial_device "/dev/ttyUSB0") 0 tt [EvUsingPty])).
Proof.
  assert (Hp : @parseArgs linux ["prog"; "--tty"; "/dev/ttyUSB0"] serial_device
               = Some (1, set_path serial_device "/dev/ttyUSB0", []))
    by (vm_compute; reflexivity).
  assert (Hok : 1 <> 0) by discriminate.
  destruct (main_reports_simulated_device linux idle_processor _ _ _ _ Hp Hok)
    as [_ [_ [Hm _]]].
  split; [exact Hp|]. split; [exact Hok|exact Hm].
Defined.

(** ** The control loop and teardown *)

Lemma closed_fds_app (a b : list event) :
  closed_fds (a ++ b) = closed_fds a ++ closed_fds b.
Proof. unfold closed_fds. apply flat_map_app. Qed.

Lemma deliver_keeps {M : Processor} (signums : list Z) (w : world) :
  device (deliver signums w) = device w /\
  mctp (deliver signums w) = mctp w /\
  closed_fds (output (deliver signums w)) = closed_fds (output w).
Proof.
  unfold deliver. revert w.
  induction signums as [|n l IH]; intros w; [repeat split|].
  cbn [fold_left]. destruct (IH (signalHandler w n)) as [H1 [H2 H3]].
  rewrite H1, H2, H3. cbn [signalHandler device mctp output].
  rewrite closed_fds_app. cbn. rewrite app_nil_r. repeat split.
Qed.

(** Signals only ever set the flag. *)
Lemma deliver_sets_flag {M : Processor} (signums : list Z) (w : world) :
  interrupted (deliver signums w)
  = match signums with [] => interrupted w | _ => 1 end.
Proof.
  unfold deliver. destruct signums as [|n l]; [reflexivity|].
  cbn [fold_left].
  assert (H : forall l' w', interrupted w' = 1 ->
                            interrupted (fold_left signalHandler l' w') = 1).
  { induction l' as [|m l' IH]; intros w' Hw'; [exact Hw'|].
    cbn [fold_left]. apply IH. reflexivity. }
  apply H. reflexivity.
Qed.

(** Each signal adds its notice to the output, and nothing else. *)
Lemma deliver_output {M : Processor} (signums : list Z) (w : world) :
  output (deliver signums w) = output w ++ notices signums.
Proof.
  unfold deliver, notices. revert w.
  induction signums as [|n l IH]; intros w.
  - cbn. rewrite app_nil_r. reflexivity.
  - cbn [fold_left map]. rewrite IH. cbn [signalHandler output].
    rewrite <- app_assoc. reflexivity.
Qed.


(** Once the flag is set the loop runs no further iteration. *)
Lemma control_loop_flag_set {M : Processor} (fuel : nat) (sched : schedule)
    (n : nat) (w : world) :
  interrupted w <> 0 -> control_loop fuel sched n w = Some (n, w).
Proof.
  intros H. destruct fuel; cbn [control_loop];
    destruct (Z.eqb_spec (interrupted w) 0); try contradiction; reflexivity.
Qed.

(** With the flag clear and the first signal due in the [k]-th iteration
    from here, the loop runs that iteration to its end and stops. *)
Lemma control_loop_until_signal {M : Processor} (sched : schedule) (k : nat) :
  forall fuel n w,
    interrupted w = 0 ->
    (forall j, (j < k)%nat -> in_iteration sched (n + j) = []) ->
    in_iteration sched (n + k) <> [] ->
    (k < fuel)%nat ->
    exists w1,
      control_loop fuel sched n w = Some ((n + S k)%nat, w1) /\
      device w1 = device w /\
      closed_fds (output w1) = closed_fds (output w) /\
      interrupted w1 = 1.
Proof.
  induction k as [|k IH]; intros fuel n w Hw Hquiet Hsig Hfuel.
  - destruct fuel as [|fuel]; [lia|]. cbn [control_loop]. rewrite Hw.
    cbn [Z.eqb]. rewrite Nat.add_0_r in Hsig.
    set (w' := deliver (in_iteration sched n) (loop_body w)).
    assert (Hflag : interrupted w' = 1).
    { unfold w'. rewrite deliver_sets_flag.
      destruct (in_iteration sched n); [contradiction|reflexivity]. }
    exists w'. rewrite control_loop_flag_set by (rewrite Hflag; discriminate).
    destruct (deliver_keeps (in_iteration sched n) (loop_body w))
      as [Hd [_ Hc]].
    replace (n + 1)%nat with (S n) by lia.
    repeat split; [exact Hd|exact Hc|exact Hflag].
  - destruct fuel as [|fuel]; [lia|]. cbn [control_loop]. rewrite Hw.
    cbn [Z.eqb].
    assert (Hn : in_iteration sched n = []).
    { rewrite <- (Nat.add_0_r n). apply Hquiet. lia. }
    rewrite Hn. cbn [deliver fold_left].
    destruct (IH fuel (S n) (loop_body w)) as [w1 [Hl [Hd [Hc Hf]]]].
    + exact Hw.
    + intros j Hj. replace (S n + j)%nat with (n + S j)%nat by lia.
      apply Hquiet. lia.
    + replace (S n + k)%nat with (n + S k)%nat by lia. exact Hsig.
    + lia.
    + exists w1. replace (n + S (S k))%nat with (S n + S k)%nat by lia.
      repeat split; assumption.
Qed.

Lemma teardown_closes {M : Processor} (w : world) :
  fd (device (teardown w)) = -1 /\
  output (teardown w)
  = output w ++ (if fd (device w) =? -1 then [] else [EvClose (fd (device w))]) /\
  teardown (teardown w) = teardown w.
Proof.
  unfold teardown. destruct (Z.eqb_spec (fd (device w)) (-1)) as [E|E].
  - rewrite app_nil_r. destruct (Z.eqb_spec (fd (device w)) (-1));
      [auto|contradiction].
  - cbn. repeat split.
Qed.

(** C1, as stated, fails: in a run in which no pseudo-terminal could be
    had, the flag is set during the first iteration, the loop ends after
    that iteration, and the handle is -1 at the end, but nothing was
    closed, not once. *)
Lemma failed_init_run_closes_nothing :
  exists w,
    @main linux idle_processor ["prog"] os_no_pty (signal_in 0 SIGINT) 1
    = Some (0, 1%nat, w) /\
    fd (device w) = -1 /\
    closed_fds (output w) = [].
Proof. eexists. repeat split. Qed.

(** C1, amended: in every run that gets past argument parsing, when the
    flag is first set by a signal before the loop's first test the loop
    runs no iteration, and when it is first set during iteration [k] the
    loop ends with that iteration, so after [k + 1] of them.  Nothing is
    closed while the loop runs.  Teardown then leaves the handle -1: it
    closes the handle exactly once when the handle is open at the exit of
    the loop, and closes nothing when initialization had left it -1.
    Teardown once more changes nothing. *)
Theorem interrupt_ends_run (P : Platform) (M : Processor)
    (argv : list string) (env : os_env) (sched : schedule) (fuel : nat)
    (t : flag_point) (w0 : world) :
  main_startup argv = Some (inr w0) ->
  first_set sched t ->
  (iterations_begun t <= fuel)%nat ->
  exists w1,
    main argv env sched fuel = Some (0, iterations_begun t, teardown w1) /\
    device w1 = device (mctp_init env w0) /\
    closed_fds (output w1) = closed_fds (output (mctp_init env w0)) /\
    fd (device (teardown w1)) = -1 /\
    closed_fds (output (teardown w1))
    = closed_fds (output w1)
      ++ (if fd (device w1) =? -1 then [] else [fd (device w1)]) /\
    teardown (teardown w1) = teardown w1.
Proof.
  intros Hstart Hset Hfuel. unfold main. rewrite Hstart.
  set (wi := mctp_init env w0).
  assert (Hi : interrupted wi = 0).
  { assert (H0 : interrupted w0 = 0).
    { unfold main_startup in Hstart.
      destruct (parseArgs argv (device world_start)) as [[[ok c0] o]|];
        [|discriminate].
      destruct (ok =? 0); inversion Hstart. reflexivity. }
    unfold wi, mctp_init. destruct (platform_init env (device w0)).
    exact H0. }
  assert (Hloop : exists w1,
             control_loop fuel sched 0 (deliver (at_startup sched) wi)
             = Some (iterations_begun t, w1) /\
             device w1 = device wi /\
             closed_fds (output w1) = closed_fds (output wi)).
  { destruct (deliver_keeps (at_startup sched) wi) as [Hd [_ Hc]].
    destruct t as [|k]; cbn [first_set iterations_begun] in *.
    - exists (deliver (at_startup sched) wi).
      rewrite control_loop_flag_set; [auto|].
      rewrite deliver_sets_flag.
      destruct (at_startup sched); [contradiction|discriminate].
    - destruct Hset as [H0 [Hquiet Hsig]]. rewrite H0 in *.
      cbn [deliver fold_left] in *.
      destruct (control_loop_until_signal sched k fuel 0 wi Hi Hquiet Hsig)
        as [w1 [Hl [Hd1 [Hc1 _]]]]; [lia|].
      exists w1. auto. }
  destruct Hloop as [w1 [Hl [Hd Hc]]]. exists w1. rewrite Hl.
  destruct (teardown_closes w1) as [Hfd [Hout Hidem]].
  repeat split; try assumption.
  rewrite Hout, closed_fds_app.
  destruct (fd (device w1) =? -1); reflexivity.
Qed.

(** C1, amended, on Linux: SIGINT during the third iteration of a run on
    a simulated device with descriptor 3.  The loop runs three iterations
    and teardown closes descriptor 3, once. *)
Lemma interrupt_ends_run_pty :
  exists w1,
    @main linux idle_processor ["prog"] os_fine (signal_in 2 SIGINT) 5
    = Some (0, 3%nat, teardown w1) /\
    fd (device (teardown w1)) = -1 /\
    closed_fds (output (teardown w1)) = [3].
Proof.
  pose (w0 := @Build_world idle_processor serial_device 0 tt [EvUsingPty]).
  assert (Hstart : @main_startup linux idle_processor ["prog"]
                   = Some (inr w0)) by (vm_compute; reflexivity).
  assert (Hset : first_set (signal_in 2 SIGINT) (InIteration 2)).
  { split; [reflexivity|]. split; [|discriminate].
    intros j Hj. destruct j as [|[|j]]; [reflexivity|reflexivity|lia]. }
  assert (Hfuel : (iterations_begun (InIteration 2) <= 5)%nat)
    by (cbn; lia).
  destruct (interrupt_ends_run linux idle_processor ["prog"] os_fine
              (signal_in 2 SIGINT) 5 (InIteration 2) w0 Hstart Hset Hfuel)
    as [w1 [Hm [Hd [Hc [Hfd [Hcl _]]]]]].
  exists w1. split; [exact Hm|]. split; [exact Hfd|].
  rewrite Hcl, Hc, Hd. vm_compute. reflexivity.
Defined.

(** ** Tokens the scan does not take as options

    A short option with a required argument takes the next element of argv
    as its value whatever it looks like, and "--" ends the options: in
    neither case does getopt_long see an option in the element. *)
Example short_option_takes_next_element (P : Platform) :
  parseArgs ["prog"; "-t"; "--help"] serial_device
  = Some (1, set_path serial_device (strncpy_path "--help"), []) /\
  parseArgs ["prog"; "--"; "--help"] serial_device
  = Some (1, serial_device, []) /\
  parseArgs ["prog"; "--tty"; "--help"] serial_device
  = Some (0, set_path serial_device "", [EvUsage (Some "prog")]).
Proof. repeat split. Qed.

(** ** What getopt_long can answer to parseArgs

    With the option string and the table of parseArgs, getopt_long answers
    -1, one of 't', 'b', 'f', 'h', or '?': the [default] of the switch is
    reached for '?' only, and the usage text is printed for 'h' and '?'
    and for nothing else. *)

Lemma short_option_answers (argv : list string) (i : nat) (c : ascii)
    (rest : string) :
  In (fst (fst (short_option argv optstring_main i c rest))) parse_answers.
Proof.
  unfold short_option.
  destruct (Ascii.eqb c ":" || Ascii.eqb c ";") eqn:Ec; [cbn; tauto|].
  apply orb_false_elim in Ec as [Ec _].
  unfold optstring_main. cbn [optstring_find].
  destruct (Ascii.eqb_spec "t" c) as [<-|_].
  { change (colons_after _) with 1%nat. cbv iota.
    destruct rest; cbn [is_empty];
      [destruct (nth_error argv (S i))|]; cbn; tauto. }
  destruct (Ascii.eqb_spec ":" c) as [<-|_]; [discriminate Ec|].
  destruct (Ascii.eqb_spec "b" c) as [<-|_].
  { change (colons_after _) with 1%nat. cbv iota.
    destruct rest; cbn [is_empty];
      [destruct (nth_error argv (S i))|]; cbn; tauto. }
  destruct (Ascii.eqb_spec "f" c) as [<-|_].
  { change (colons_after _) with 1%nat. cbv iota.
    destruct rest; cbn [is_empty];
      [destruct (nth_error argv (S i))|]; cbn; tauto. }
  destruct (Ascii.eqb_spec "h" c) as [<-|_]; cbn; tauto.
Qed.

Lemma find_long_found (longopts : list option_t) (nm : string) (p : option_t) :
  find_long longopts nm = LongFound p -> In p longopts.
Proof.
  unfold find_long.
  destruct (find _ longopts) as [q|] eqn:Ef.
  - intros H. inversion H; subst. apply find_some in Ef. tauto.
  - destruct (filter _ longopts) as [|q others] eqn:Efi; [discriminate|].
    destruct (existsb _ others); [discriminate|].
    intros H. inversion H; subst.
    assert (Hin : In p (filter (fun p0 => prefix nm (lo_name p0)) longopts))
      by (rewrite Efi; left; reflexivity).
    apply filter_In in Hin. tauto.
Qed.

Lemma process_long_option_answers (argv : list string) (i : nat)
    (text : string) :
  In (fst (fst (process_long_option argv optstring_main longOpts i text)))
     parse_answers.
Proof.
  unfold process_long_option. destruct (split_name text) as [nm arg].
  destruct (find_long longOpts nm) as [p| |] eqn:Ef; try (cbn; tauto).
  apply find_long_found in Ef.
  assert (Hv : In (lo_val p) parse_answers).
  { cbn in Ef. destruct Ef as [<-|[<-|[<-|[<-|[]]]]]; cbn; tauto. }
  destruct arg as [a|].
  - destruct (lo_has_arg p =? no_argument); [cbn; tauto|exact Hv].
  - destruct (lo_has_arg p =? required_argument); [|exact Hv].
    destruct (nth_error argv (S i)); [exact Hv|cbn; tauto].
Qed.

Lemma getopt_long_answers (argv : list string) (s : parse_state) :
  In (getopt_answer argv s) parse_answers.
Proof.
  unfold getopt_answer, getopt_long.
  destruct (nextchar (fst (fst s))) as [|c rest];
    [|apply short_option_answers].
  cbv zeta. destruct (nth_error argv _) as [elt|]; [|cbn; tauto].
  destruct (NONOPTION_P elt); [cbn; tauto|].
  destruct elt as [|c0 [|c rest]]; try (cbn; tauto).
  destruct (Ascii.eqb c "-"); [|apply short_option_answers].
  destruct (is_empty rest); [cbn; tauto|apply process_long_option_answers].
Qed.

(** ** Help and unknown options *)


(** *** From the text of the elements to the answers of getopt_long *)

















(** The elements by their text, on examples. *)
Example kind_of_examples :
  map kind_of ["/dev/ttyS0"; "-"; "--"; "--tty=/dev/ttyS0"; "-b9600";
               "--baud"; "--hw"; "-f"; "--help"; "--he"; "-h"; "-hx";
               "--h"; "--help=1"; "--verbose"; "-x"]
  = [Operand; Operand; EndOfOptions; WithValue; WithValue;
     BareLong; BareLong; BareShort; HelpRequest; HelpRequest; HelpRequest;
     HelpRequest; Unrecognized; Unrecognized; Unrecognized; Unrecognized].
Proof. reflexivity. Qed.

(** Where in the startup a signal is delivered decides nothing but the
    place of its notice in the output: delivered before mctp_init or after
    it, the signals leave the same configuration, flag and processor, the
    same descriptors closed, and the same output apart from the notices. *)
Lemma startup_signal_placement {P : Platform} {M : Processor}
    (env : os_env) (signums : list Z) (w : world) :
  same_but_notices (deliver signums (mctp_init env w))
                   (mctp_init env (deliver signums w)).
Proof.
  unfold same_but_notices.
  destruct (deliver_keeps signums w) as [Hd2 [Hm2 _]].
  pose proof (deliver_sets_flag signums w) as Hf2.
  pose proof (deliver_output signums w) as Ho2.
  assert (Hearly : mctp_init env (deliver signums w)
                   = let (cfg, ev) := platform_init env (device w) in
                     {| device := cfg;
                        interrupted := interrupted (deliver signums w);
                        mctp := mctp_core_init (mctp w);
                        output := (output w ++ notices signums) ++ ev |}).
  { unfold mctp_init. rewrite Hd2, Hm2, Ho2. reflexivity. }
  rewrite Hearly.
  destruct (deliver_keeps signums (mctp_init env w)) as [Hd1 [Hm1 Hc1]].
  rewrite Hd1, Hm1, Hc1, (deliver_sets_flag signums (mctp_init env w)),
    (deliver_output signums (mctp_init env w)).
  unfold mctp_init. destruct (platform_init env (device w)) as [cfg ev].
  cbn [device interrupted mctp output]. rewrite Hf2.
  assert (Hc : closed_fds (notices signums) = []).
  { clear. induction signums as [|n l IH]; [reflexivity|exact IH]. }
  assert (Hn : without_notices (notices signums) = []).
  { clear. induction signums as [|n l IH]; [reflexivity|exact IH]. }
  repeat split.
  - rewrite !closed_fds_app, Hc, app_nil_r. reflexivity.
  - unfold without_notices in *. rewrite !filter_app, Hn, !app_nil_r.
    reflexivity.
Qed.

Lemma teardown_same_but_notices {M : Processor} (w w' : world) :
  same_but_notices w w' -> same_but_notices (teardown w) (teardown w').
Proof.
  unfold same_but_notices, teardown. intros [Hd [Hi [Hm [Hc Ho]]]].
  rewrite <- Hd. destruct (fd (device w) =? -1).
  - repeat split; assumption.
  - cbn [device interrupted mctp output].
    unfold without_notices in *.
    rewrite !closed_fds_app, !filter_app, Hd, Hi, Hm, Hc, Ho.
    repeat split.
Qed.

(** The signals of the startup phase can arrive anywhere between the
    installation of the handlers and the loop's first test.  Delivered at
    the one end of that span or at the other, main returns or not alike,
    with the same status after the same number of iterations, and in states
    that differ in nothing but the place of the notices in the output. *)
Lemma main_startup_signal_timing {P : Platform} {M : Processor}
    (argv : list string) (env : os_env) (sched : schedule) (fuel : nat) :
  match main argv env sched fuel, main_signals_first argv env sched fuel with
  | Some (st, n, w), Some (st', n', w') =>
      st = st' /\ n = n' /\ same_but_notices w w'
  | None, None => True
  | _, _ => False
  end.
Proof.
  unfold main, main_signals_first.
  destruct (main_startup argv) as [[[st w]|w]|]; [|..|exact I].
  - repeat split.
  - destruct (at_startup sched) as [|s l] eqn:E.
    + cbn [deliver fold_left].
      destruct (control_loop fuel sched 0 (mctp_init env w)) as [[n w1]|];
        [|exact I].
      repeat split.
    + pose proof (startup_signal_placement env (s :: l) w) as Hsame.
      assert (H1 : interrupted (deliver (s :: l) (mctp_init env w)) <> 0).
      { rewrite deliver_sets_flag. discriminate. }
      assert (H2 : interrupted (mctp_init env (deliver (s :: l) w)) <> 0).
      { destruct Hsame as [_ [Hi _]]. rewrite <- Hi. exact H1. }
      rewrite (control_loop_flag_set fuel sched 0 _ H1),
        (control_loop_flag_set fuel sched 0 _ H2).
      split; [reflexivity|]. split; [reflexivity|].
      apply teardown_same_but_notices, Hsame.
Qed.


(** * Further properties of the code *)

(** ** toLower *)

Lemma tolower_idempotent (c : ascii) : tolower (tolower c) = tolower c.
Proof. destruct c as [[] [] [] [] [] [] [] []]; reflexivity. Qed.

Lemma tolower_not_upper (c : ascii) : is_upper c = false -> tolower c = c.
Proof. unfold tolower, is_upper. intros ->. reflexivity. Qed.

Lemma tolower_is_lower (c : ascii) : is_upper (tolower c) = false.
Proof. destruct c as [[] [] [] [] [] [] [] []]; reflexivity. Qed.

(** toLower keeps the length of its string (the conversion in place never
    writes past the terminator), leaves no upper-case letter, changes
    nothing in a string that has none, and so changes nothing when applied
    again. *)
Theorem toLower_in_place (s : string) :
  String.length (toLower s) = String.length s /\
  has_upper (toLower s) = false /\
  (has_upper s = false -> toLower s = s) /\
  toLower (toLower s) = toLower s.
Proof.
  induction s as [|c s [Hl [Hu [Hf Hi]]]]; [repeat split|].
  cbn [toLower String.length has_upper]. repeat split.
  - rewrite Hl. reflexivity.
  - rewrite tolower_is_lower, Hu. reflexivity.
  - intros H. apply orb_false_elim in H as [Hc Hs].
    rewrite (tolower_not_upper c Hc), (Hf Hs). reflexivity.
  - rewrite tolower_idempotent, Hi. reflexivity.
Qed.

Lemma toLower_in_place_sample :
  has_upper "/dev/ttyusb0" = false /\ toLower "/dev/ttyusb0" = "/dev/ttyusb0".
Proof.
  destruct (toLower_in_place "/dev/ttyusb0") as [_ [_ [Hf _]]].
  split; [reflexivity|]. apply Hf. reflexivity.
Defined.

(** ** parseBool *)

Lemma parseBool_cases (s : string) :
  (In (toLower s) true_tokens /\ parseBool (Some s) = (1, [])) \/
  (In (toLower s) false_tokens /\ parseBool (Some s) = (0, [])) \/
  (~ In (toLower s) (true_tokens ++ false_tokens) /\
   parseBool (Some s) = (0, [EvWarnBool (toLower s)])).
Proof.
  unfold parseBool, true_tokens, false_tokens. cbn [In app].
  destruct (String.eqb_spec (toLower s) "true") as [E|N1];
    [left; rewrite E; cbn; tauto|].
  destruct (String.eqb_spec (toLower s) "1") as [E|N2];
    [left; rewrite E; cbn; tauto|].
  destruct (String.eqb_spec (toLower s) "yes") as [E|N3];
    [left; rewrite E; cbn; tauto|].
  destruct (String.eqb_spec (toLower s) "false") as [E|N4];
    [right; left; rewrite E; cbn; tauto|].
  destruct (String.eqb_spec (toLower s) "0") as [E|N5];
    [right; left; rewrite E; cbn; tauto|].
  destruct (String.eqb_spec (toLower s) "no") as [E|N6];
    [right; left; rewrite E; cbn; tauto|].
  right; right. cbn [orb]. split; [|reflexivity].
  intros H. intuition congruence.
Qed.

(** parseBool answers 0 or 1 and nothing else; 1 exactly for the casings of
    true, 1 and yes; the warning is printed exactly for the tokens that are
    no casing of any of the six words, so "false", "0" and "no" differ from
    an unknown token by the warning alone; a missing token (NULL) gives 0
    without a warning. *)
Theorem parseBool_value (s : string) :
  (fst (parseBool (Some s)) = 0 \/ fst (parseBool (Some s)) = 1) /\
  (fst (parseBool (Some s)) = 1 <-> In (toLower s) true_tokens) /\
  (snd (parseBool (Some s)) <> [] <->
   ~ In (toLower s) (true_tokens ++ false_tokens)) /\
  parseBool None = (0, []).
Proof.
  destruct (parseBool_cases s) as [[Hin ->]|[[Hin ->]|[Hin ->]]];
    cbn [fst snd].
  - repeat split; auto; try discriminate; try tauto.
    intros H _. apply H. apply in_or_app. auto.
  - assert (Hnt : ~ In (toLower s) true_tokens).
    { cbn in Hin |- *. intuition congruence. }
    repeat split; auto; try discriminate; try tauto.
    intros H _. apply H. apply in_or_app. auto.
  - repeat split; auto; try discriminate.
    intros H. exfalso. apply Hin. apply in_or_app. auto.
Qed.

(** ** baudRateFromString *)

Lemma baud_lookup_in (table : list (string * Z)) (s : string) (v : Z) :
  baud_lookup table s = Some v -> In (s, v) table.
Proof.
  induction table as [|[name val] rest IH]; [discriminate|].
  cbn [baud_lookup]. destruct (String.eqb_spec s name) as [->|_].
  - intros H. inversion H. left. reflexivity.
  - intros H. right. apply IH, H.
Qed.

Lemma baud_lookup_in_tokens {P : Platform} (s : string) :
  In s baud_tokens -> baud_lookup baudMap s <> None.
Proof.
  unfold baud_tokens. generalize baudMap.
  induction l as [|[name val] rest IH]; [contradiction|].
  cbn [map fst In baud_lookup]. intros [->|H].
  - rewrite String.eqb_refl. discriminate.
  - destruct (String.eqb s name); [discriminate|apply IH, H].
Qed.

Lemma baudRateFromString_in_speeds {P : Platform} (v : option string) :
  In (fst (baudRateFromString v)) speed_constants.
Proof.
  destruct v as [s|]; [|cbn; tauto]. unfold baudRateFromString.
  destruct (baud_lookup baudMap s) as [b|] eqn:E; [|cbn; tauto].
  apply baud_lookup_in in E. cbn [fst]. cbn in E |- *.
  repeat match goal with
         | H : _ \/ _ |- _ => destruct H as [H|H]
         | H : (_, _) = (_, _) |- _ => inversion H; clear H
         end; tauto.
Qed.

(** baudRateFromString never returns anything but one of the seven speeds
    of its table, whatever the string; the warning is printed exactly when
    a string was given that is not, character for character, one of the
    seven tokens; for a missing string (NULL) it returns B115200
    silently. *)
Theorem baudRateFromString_range (P : Platform) (v : option string) :
  In (fst (baudRateFromString v)) speed_constants /\
  (snd (baudRateFromString v) <> [] <->
   exists s, v = Some s /\ ~ In s baud_tokens) /\
  (forall s, v = Some s -> ~ In s baud_tokens ->
             snd (baudRateFromString v) = [EvWarnBaud s]) /\
  baudRateFromString None = (B115200, []).
Proof.
  split; [apply baudRateFromString_in_speeds|].
  split; [|split; [|reflexivity]].
  - destruct v as [s|].
    + unfold baudRateFromString.
      destruct (baud_lookup baudMap s) as [b|] eqn:E; cbn [snd].
      * split; [congruence|]. intros [s' [Hs Hn]]. inversion Hs; subst.
        rewrite (baud_lookup_none s' Hn) in E. discriminate.
      * split; [|discriminate]. intros _. exists s. split; [reflexivity|].
        intros Hin. apply baud_lookup_in_tokens in Hin. congruence.
    + cbn. split; [congruence|]. intros [s [Hs _]]. discriminate.
  - intros s -> Hn. rewrite (baudRateFromString_unrecognized s Hn).
    reflexivity.
Qed.

(** ** parseArgs *)

Lemma print_errors_getopt (optstring : string) (e : getopt_error) :
  forallb is_getopt_message (print_errors optstring e) = true.
Proof. unfold print_errors. destruct (starts_with ":" optstring); reflexivity. Qed.

Lemma getopt_long_messages (argv : list string) (optstring : string)
    (longopts : list option_t) (d : getopt_data) :
  forallb is_getopt_message (snd (getopt_long argv optstring longopts d))
  = true.
Proof.
  assert (Hshort : forall i c rest,
             forallb is_getopt_message
               (snd (short_option argv optstring i c rest)) = true).
  { intros i c rest. unfold short_option.
    destruct (Ascii.eqb c ":" || Ascii.eqb c ";");
      [apply print_errors_getopt|].
    destruct (optstring_find optstring c) as [temp|];
      [|apply print_errors_getopt].
    destruct (colons_after temp) as [|[|n]]; try reflexivity;
      destruct (is_empty rest); try reflexivity.
    destruct (nth_error argv (S i)); [reflexivity|apply print_errors_getopt]. }
  unfold getopt_long. destruct (nextchar d) as [|c rest]; [|apply Hshort].
  cbv zeta.
  destruct (nth_error argv _) as [elt|]; [|reflexivity].
  destruct (NONOPTION_P elt); [reflexivity|].
  destruct elt as [|c0 [|c rest]]; try reflexivity.
  destruct (Ascii.eqb c "-"); [|apply Hshort].
  destruct (is_empty rest); [reflexivity|].
  unfold process_long_option. destruct (split_name rest) as [nm arg].
  destruct (find_long longopts nm) as [q| |];
    try apply print_errors_getopt.
  destruct arg as [a|].
  - destruct (lo_has_arg q =? no_argument);
      [apply print_errors_getopt|reflexivity].
  - destruct (lo_has_arg q =? required_argument); [|reflexivity].
    destruct (nth_error argv _); [reflexivity|apply print_errors_getopt].
Qed.

Lemma getopt_messages_no_usage (ev : list event) :
  forallb is_getopt_message ev = true -> existsb is_usage ev = false.
Proof.
  induction ev as [|e ev IH]; [reflexivity|]. cbn [forallb existsb].
  intros H. apply andb_prop in H as [He Hr]. rewrite (IH Hr).
  destruct e; try discriminate He; reflexivity.
Qed.

Lemma baud_warning_no_usage {P : Platform} (v : option string) :
  existsb is_usage (snd (baudRateFromString v)) = false.
Proof.
  destruct v as [s|]; [|reflexivity]. unfold baudRateFromString.
  destruct (baud_lookup baudMap s); reflexivity.
Qed.

Lemma bool_warning_no_usage (v : option string) :
  existsb is_usage (snd (parseBool v)) = false.
Proof.
  destruct v as [s|]; [|reflexivity]. unfold parseBool.
  destruct (_ || _); [reflexivity|]. destruct (_ || _); reflexivity.
Qed.

(** The usage text is printed in the pass that returns 0 and in no other. *)
Lemma parseArgs_step_usage {P : Platform} (argv : list string)
    (d : getopt_data) (cfg : config_t) (out : list event) :
  existsb is_usage out = false ->
  match parseArgs_step argv (d, cfg, out) with
  | inl (r, _, out') => existsb is_usage out' = (r =? 0)
  | inr (_, _, out') => existsb is_usage out' = false
  end.
Proof.
  intros Hout. unfold parseArgs_step.
  pose proof (getopt_messages_no_usage _
                (getopt_long_messages argv optstring_main longOpts d)) as Hev.
  destruct (getopt_long argv optstring_main longOpts d) as [[opt d1] ev].
  cbn [snd] in Hev.
  assert (H1 : existsb is_usage (out ++ ev) = false)
    by (rewrite existsb_app, Hout, Hev; reflexivity).
  destruct (opt =? -1); [exact H1|].
  destruct (option_value argv d1) as [val d2].
  destruct (opt =? ch "t"); [destruct val; exact H1|].
  destruct (opt =? ch "b").
  { destruct val as [v|]; [|exact H1].
    pose proof (baud_warning_no_usage (Some v)) as Hb.
    destruct (baudRateFromString (Some v)) as [b w]. cbn [snd] in Hb.
    rewrite existsb_app, H1, Hb. reflexivity. }
  destruct (opt =? ch "f").
  { destruct val as [v|]; [|exact H1].
    pose proof (bool_warning_no_usage (Some v)) as Hb.
    destruct (parseBool (Some v)) as [b w]. cbn [snd] in Hb.
    rewrite existsb_app, H1, Hb. reflexivity. }
  rewrite existsb_app, H1. reflexivity.
Qed.

Lemma parseArgs_loop_usage {P : Platform} (argv : list string) (fuel : nat) :
  forall d cfg out r cfg' out',
    existsb is_usage out = false ->
    parseArgs_loop fuel argv (d, cfg, out) = Some (r, cfg', out') ->
    existsb is_usage out' = (r =? 0).
Proof.
  induction fuel as [|fuel IH]; intros d cfg out r cfg' out' Hout H;
    [discriminate|].
  cbn [parseArgs_loop] in H.
  pose proof (parseArgs_step_usage argv d cfg out Hout) as Hk.
  destruct (parseArgs_step argv (d, cfg, out)) as [[[r0 c0] o0]|[[d1 c1] o1]].
  - inversion H; subst. exact Hk.
  - exact (IH _ _ _ _ _ _ Hk H).
Qed.

(** parseArgs returns for every argument list, however long the scan, with
    0 or 1.  It prints the usage text exactly when it returns 0.  It never
    assigns the handle and prints nothing but its two warnings, the usage
    text and the messages of getopt_long. *)
Theorem parseArgs_outcome (P : Platform) (argv : list string)
    (cfg : config_t) :
  exists r cfg' out,
    parseArgs argv cfg = Some (r, cfg', out) /\
    (r = 0 \/ r = 1) /\
    existsb is_usage out = (r =? 0) /\
    fd cfg' = fd cfg /\
    forallb is_parser_event out = true.
Proof.
  destruct (parseArgs_returns argv cfg) as [[[r cfg'] out] H].
  exists r, cfg', out. split; [exact H|]. unfold parseArgs in H.
  pose proof (parseArgs_loop_usage argv _ _ _ [] _ _ _ eq_refl H) as Hu.
  destruct (parseArgs_loop_keeps argv _ _ _ [] _ _ _ eq_refl H)
    as [Hfd [Hev Hr]].
  repeat split; try assumption. tauto.
Qed.

Lemma substring_length_le (s : string) (n : nat) :
  (String.length (substring 0 n s) <= n)%nat.
Proof.
  revert n. induction s as [|c s IH]; intros [|n]; cbn; try lia.
  specialize (IH n). lia.
Qed.

Lemma parseBool_zero_or_one (v : option string) :
  fst (parseBool v) = 0 \/ fst (parseBool v) = 1.
Proof.
  destruct v as [s|]; [|left; reflexivity]. unfold parseBool.
  destruct (_ || _); [right; reflexivity|].
  destruct (_ || _); left; reflexivity.
Qed.

Lemma parseArgs_step_config_ok {P : Platform} (argv : list string)
    (d : getopt_data) (cfg : config_t) (out : list event) :
  config_ok cfg ->
  match parseArgs_step argv (d, cfg, out) with
  | inl (_, cfg', _) => config_ok cfg'
  | inr (_, cfg', _) => config_ok cfg'
  end.
Proof.
  intros [Hb [Hh Hp]]. unfold parseArgs_step.
  destruct (getopt_long argv optstring_main longOpts d) as [[opt d1] ev].
  destruct (opt =? -1); [repeat split; assumption|].
  destruct (option_value argv d1) as [val d2].
  destruct (opt =? ch "t").
  { destruct val as [v|]; repeat split; try assumption;
      cbn [set_path path].
    - apply substring_length_le.
    - cbn. lia. }
  destruct (opt =? ch "b").
  { destruct val as [v|]; [|repeat split; assumption].
    pose proof (baudRateFromString_in_speeds (Some v)) as Hin.
    destruct (baudRateFromString (Some v)) as [b w]. cbn [fst] in Hin.
    repeat split; try assumption. right. exact Hin. }
  destruct (opt =? ch "f").
  { destruct val as [v|]; [|repeat split; assumption].
    pose proof (parseBool_zero_or_one (Some v)) as Hz.
    destruct (parseBool (Some v)) as [b w]. cbn [fst] in Hz.
    repeat split; assumption. }
  repeat split; assumption.
Qed.

Lemma parseArgs_loop_config_ok {P : Platform} (argv : list string)
    (fuel : nat) :
  forall d cfg out r cfg' out',
    config_ok cfg ->
    parseArgs_loop fuel argv (d, cfg, out) = Some (r, cfg', out') ->
    config_ok cfg'.
Proof.
  induction fuel as [|fuel IH]; intros d cfg out r cfg' out' Hok H;
    [discriminate|].
  cbn [parseArgs_loop] in H.
  pose proof (parseArgs_step_config_ok argv d cfg out Hok) as Hk.
  destruct (parseArgs_step argv (d, cfg, out)) as [[[r0 c0] o0]|[[d1 c1] o1]].
  - inversion H; subst. exact Hk.
  - exact (IH _ _ _ _ _ _ Hk H).
Qed.

(** Whatever the arguments, and whether parsing succeeds or fails, the
    configuration parseArgs leaves is well formed when the one it started
    from was: the rate is 115200 or one of the seven speeds of the table
    (never a number taken from the command line), the flow-control flag is
    0 or 1, and the path is at most SERIAL_PATH_MAX - 1 characters long, so
    that it fits the field with its terminator. *)
Theorem parseArgs_keeps_config_ok (P : Platform) (argv : list string)
    (cfg cfg' : config_t) (r : Z) (out : list event) :
  config_ok cfg ->
  parseArgs argv cfg = Some (r, cfg', out) ->
  config_ok cfg'.
Proof.
  intros Hok H. unfold parseArgs in H.
  exact (parseArgs_loop_config_ok argv _ _ _ _ _ _ _ Hok H).
Qed.

(** On Linux, from the defaults, with a path longer than the field: the
    path kept has 1023 characters. *)
Lemma parseArgs_keeps_config_ok_long_path :
  let long := String.concat "" (repeat "0123456789abcdef" 300) in
  @config_ok linux serial_device /\
  exists cfg',
    @parseArgs linux ["prog"; "-t"; long; "--baud"; "1200"] serial_device
    = Some (1, cfg', [EvWarnBaud "1200"]) /\
    @config_ok linux cfg' /\
    String.length long = 4800%nat /\
    String.length (path cfg') = 1023%nat /\
    baud cfg' = 4098.
Proof.
  cbv zeta.
  set (long := String.concat "" (repeat "0123456789abcdef" 300)).
  assert (H0 : @config_ok linux serial_device).
  { repeat split; [left; reflexivity|left; reflexivity|cbn; lia]. }
  split; [exact H0|].
  destruct (@parseArgs linux ["prog"; "-t"; long; "--baud"; "1200"]
              serial_device) as [[[r cfg'] out]|] eqn:E;
    [|vm_compute in E; discriminate E].
  pose proof (parseArgs_keeps_config_ok linux _ _ _ _ _ H0 E) as Hok.
  assert (E' := E). vm_compute in E'. inversion E'; subst.
  eexists. split; [reflexivity|]. split; [exact Hok|].
  repeat split; vm_compute; reflexivity.
Defined.

Lemma skip_nonoptions_app (ops rest : list string) (i : nat) :
  Forall (fun s => NONOPTION_P s = true) ops ->
  skip_nonoptions (ops ++ rest) i
  = skip_nonoptions rest (i + List.length ops).
Proof.
  intros H. revert i. induction H as [|s ops Hs _ IH]; intros i.
  - cbn. rewrite Nat.add_0_r. reflexivity.
  - cbn [app skip_nonoptions List.length]. rewrite Hs, IH.
    f_equal. lia.
Qed.

Lemma nth_error_after (prog : string) (ops rest : list string) :
  nth_error (prog :: ops ++ rest) (1 + List.length ops) = nth_error rest 0.
Proof.
  cbn [Nat.add nth_error]. rewrite nth_error_app2 by lia.
  rewrite Nat.sub_diag. reflexivity.
Qed.

(** Operands are passed over and "--" ends the scan: when the elements
    after the program name are operands (they do not start with '-', or
    are "-" alone), up to the end of the list or up to a "--", parseArgs
    returns 1, prints nothing and leaves the configuration as it was,
    whatever follows the "--". *)
Theorem parseArgs_operands_only (P : Platform) (prog : string)
    (ops rest : list string) (cfg : config_t) :
  Forall (fun s => NONOPTION_P s = true) ops ->
  parseArgs (prog :: ops) cfg = Some (1, cfg, []) /\
  parseArgs (prog :: ops ++ "--" :: rest) cfg = Some (1, cfg, []).
Proof.
  intros Hops. split.
  - replace (prog :: ops) with (prog :: ops ++ [])
      by (rewrite app_nil_r; reflexivity).
    unfold parseArgs. cbn [parseArgs_loop].
    erewrite parseArgs_step_end; [reflexivity|].
    unfold getopt_long, getopt_start. cbn [nextchar optind].
    change (skipn 1 (prog :: ops ++ [])) with (ops ++ []).
    rewrite (skip_nonoptions_app ops [] 1 Hops). cbn [skip_nonoptions].
    rewrite nth_error_after. reflexivity.
  - unfold parseArgs. cbn [parseArgs_loop]. erewrite parseArgs_step_end; [reflexivity|].
    unfold getopt_long, getopt_start. cbn [nextchar optind].
    change (skipn 1 (prog :: ops ++ "--" :: rest))
      with (ops ++ "--" :: rest).
    rewrite (skip_nonoptions_app ops _ 1 Hops).
    cbn [skip_nonoptions NONOPTION_P Ascii.eqb Bool.eqb negb].
    rewrite nth_error_after. reflexivity.
Qed.

(** Two operands, then "--", then what would otherwise be a help
    request. *)
Lemma parseArgs_operands_only_sample :
  @parseArgs linux ["prog"; "notes.txt"; "-"; "--"; "--help"] serial_device
  = Some (1, serial_device, []).
Proof.
  assert (H : Forall (fun s => NONOPTION_P s = true) ["notes.txt"; "-"])
    by (repeat constructor).
  exact (proj2 (parseArgs_operands_only linux "prog" ["notes.txt"; "-"]
                  ["--help"] serial_device H)).
Defined.

(** The case 't' of the switch. *)
Lemma parseArgs_step_tty {P : Platform} (argv : list string)
    (d d1 d2 : getopt_data) (cfg : config_t) (out ev : list event)
    (val : option string) :
  getopt_long argv optstring_main longOpts d = (ch "t", d1, ev) ->
  option_value argv d1 = (val, d2) ->
  parseArgs_step argv (d, cfg, out) =
  inr (d2,
       set_path cfg (match val with Some v => strncpy_path v | None => "" end),
       out ++ ev).
Proof.
  intros Hg Hv. unfold parseArgs_step. rewrite Hg.
  change (ch "t" =? -1) with false. change (ch "t" =? ch "t") with true.
  cbv iota. rewrite Hv. destruct val; reflexivity.
Qed.

Lemma parseArgs_one_tty {P : Platform} (argv : list string)
    (d1 d2 d3 : getopt_data) (cfg : config_t) (val : option string) :
  getopt_long argv optstring_main longOpts getopt_start = (ch "t", d1, []) ->
  option_value argv d1 = (val, d2) ->
  getopt_long argv optstring_main longOpts d2 = (-1, d3, []) ->
  parseArgs argv cfg
  = Some (1,
          set_path cfg
            (match val with Some v => strncpy_path v | None => "" end),
          []).
Proof.
  intros Hg Hv Hend.
  destruct (parseArgs_returns argv cfg) as [r Hr]. rewrite Hr.
  unfold parseArgs in Hr.
  apply (parseArgs_loop_more_fuel argv _ (S (S (args_weight argv)))) in Hr;
    [|lia].
  cbn [parseArgs_loop] in Hr.
  rewrite (parseArgs_step_tty argv _ _ _ cfg [] [] val Hg Hv) in Hr.
  cbn [app] in Hr.
  rewrite (parseArgs_step_end argv _ _ _ _ _ Hend) in Hr.
  cbn [app] in Hr. congruence.
Qed.

(** The four ways of giving the device path do the same: "--tty=PATH",
    "-t PATH" and "-tPATH" for every path (non-empty for the last), and
    "--tty PATH" for a path that does not start with '-'.  Each stores the
    path cut to SERIAL_PATH_MAX - 1 characters, prints nothing and lets
    parsing succeed.  "--tty" with nothing after it stores the empty path,
    which selects the simulated device. *)
Theorem parseArgs_tty_spellings (P : Platform) (prog path0 : string)
    (cfg : config_t) :
  let ok := Some (1, set_path cfg (strncpy_path path0), []) in
  parseArgs [prog; ("--tty=" ++ path0)%string] cfg = ok /\
  parseArgs [prog; "-t"; path0] cfg = ok /\
  (path0 <> "" -> parseArgs [prog; ("-t" ++ path0)%string] cfg = ok) /\
  (starts_with "-" path0 = false ->
   parseArgs [prog; "--tty"; path0] cfg = ok) /\
  parseArgs [prog; "--tty"] cfg = Some (1, set_path cfg "", []).
Proof.
  cbv zeta. split; [|split; [|split; [|split]]].
  - eapply (parseArgs_one_tty _ _ _ _ cfg (Some path0)); reflexivity.
  - eapply (parseArgs_one_tty _ _ _ _ cfg (Some path0)); reflexivity.
  - intros Hne. destruct path0 as [|c r]; [contradiction|].
    eapply (parseArgs_one_tty _ _ _ _ cfg (Some (String c r))); reflexivity.
  - intros Hd.
    eapply (parseArgs_one_tty _ _
              {| optind := 3; optarg := None; nextchar := "" |}
              _ cfg (Some path0)); [reflexivity| |reflexivity].
    unfold option_value. cbn. rewrite Hd. reflexivity.
  - eapply (parseArgs_one_tty _ _ _ _ cfg None); reflexivity.
Qed.

(** On Linux: a path that starts with '-' is taken by "-t" but not by
    "--tty" written apart from it. *)
Lemma parseArgs_tty_spellings_sample :
  "/dev/ttyS0" <> "" /\
  starts_with "-" "/dev/ttyS0" = false /\
  @parseArgs linux ["prog"; "-t/dev/ttyS0"] serial_device
  = Some (1, set_path serial_device "/dev/ttyS0", []) /\
  @parseArgs linux ["prog"; "--tty"; "/dev/ttyS0"] serial_device
  = Some (1, set_path serial_device "/dev/ttyS0", []).
Proof.
  destruct (parseArgs_tty_spellings linux "prog" "/dev/ttyS0" serial_device)
    as [_ [_ [H3 [H4 _]]]].
  split; [discriminate|]. split; [reflexivity|]. split.
  - exact (H3 ltac:(discriminate)).
  - exact (H4 eq_refl).
Defined.

(** ** Signals and the control loop *)

(** Signals do nothing but set the flag and print: after any sequence of
    them the configuration and the processor are untouched, one notice per
    signal has been printed in order, and the flag is 1 as soon as there
    was one signal (a further signal changes nothing but the output). *)
Theorem signals_only_set_flag (M : Processor) (signums : list Z) (w : world) :
  device (deliver signums w) = device w /\
  mctp (deliver signums w) = mctp w /\
  output (deliver signums w) = output w ++ notices signums /\
  interrupted (deliver signums w)
  = match signums with [] => interrupted w | _ => 1 end.
Proof.
  split; [apply deliver_keeps|]. split; [apply deliver_keeps|].
  split; [|apply deliver_sets_flag].
  unfold deliver, notices. revert w.
  induction signums as [|n l IH]; intros w.
  - cbn. rewrite app_nil_r. reflexivity.
  - cbn [fold_left map]. rewrite IH. cbn [signalHandler output].
    rewrite <- app_assoc. reflexivity.
Qed.

Lemma loop_body_keeps {M : Processor} (w : world) :
  device (loop_body w) = device w /\
  interrupted (loop_body w) = interrupted w /\
  output (loop_body w) = output w.
Proof. repeat split. Qed.

(** How the loop can end: with the flag set, the configuration and the
    descriptors closed so far as they were, and a signal in one of the
    iterations it ran if the flag was clear when it started. *)
Lemma control_loop_exit {M : Processor} (sched : schedule) (fuel : nat) :
  forall n w m w',
    control_loop fuel sched n w = Some (m, w') ->
    interrupted w' <> 0 /\
    device w' = device w /\
    closed_fds (output w') = closed_fds (output w) /\
    (n <= m)%nat /\
    (interrupted w = 0 ->
     exists k, (n <= k < m)%nat /\ in_iteration sched k <> []).
Proof.
  induction fuel as [|fuel IH]; intros n w m w' H; cbn [control_loop] in H.
  - destruct (Z.eqb_spec (interrupted w) 0) as [E|E]; [discriminate|].
    inversion H; subst. repeat split; auto. contradiction.
  - destruct (Z.eqb_spec (interrupted w) 0) as [E|E].
    + destruct (IH _ _ _ _ H) as [Hf [Hd [Hc [Hle Hsig]]]].
      destruct (deliver_keeps (in_iteration sched n) (loop_body w))
        as [Hd' [_ Hc']].
      split; [exact Hf|].
      split; [rewrite Hd, Hd'; reflexivity|].
      split; [rewrite Hc, Hc'; reflexivity|].
      split; [lia|]. intros _.
      destruct (in_iteration sched n) as [|s l] eqn:En.
      * destruct Hsig as [k [Hk Hs]]; [exact E|].
        exists k. split; [lia|exact Hs].
      * exists n. split; [lia|]. rewrite En. discriminate.
    + inversion H; subst. repeat split; auto. contradiction.
Qed.

Lemma control_loop_no_signal {M : Processor} (sched : schedule)
    (fuel : nat) :
  (forall k, in_iteration sched k = []) ->
  forall n w, interrupted w = 0 -> control_loop fuel sched n w = None.
Proof.
  intros Hq. induction fuel as [|fuel IH]; intros n w Hw;
    cbn [control_loop]; rewrite Hw; cbn [Z.eqb]; [reflexivity|].
  rewrite Hq. cbn [deliver fold_left]. apply IH. exact Hw.
Qed.

Lemma parser_events_close_nothing (out : list event) :
  forallb is_parser_event out = true -> closed_fds out = [].
Proof.
  induction out as [|e out IH]; [reflexivity|]. cbn [forallb].
  intros H. apply andb_prop in H as [He Ho].
  unfold closed_fds in *. cbn [flat_map]. rewrite (IH Ho).
  destruct e; try discriminate He; reflexivity.
Qed.

(** What main has done when it comes to mctp_init. *)
Lemma main_startup_state {P : Platform} {M : Processor} (argv : list string)
    (w0 : world) :
  main_startup argv = Some (inr w0) ->
  fd (device w0) = -1 /\ interrupted w0 = 0 /\ closed_fds (output w0) = [].
Proof.
  unfold main_startup. change (device world_start) with serial_device.
  destruct (parseArgs argv serial_device) as [[[ok cfg] out]|] eqn:Hp;
    [|discriminate].
  unfold parseArgs in Hp.
  destruct (parseArgs_loop_keeps argv _ _ _ [] _ _ _ eq_refl Hp)
    as [Hfd [Ho _]].
  destruct (ok =? 0); [discriminate|]. intros H. inversion H; subst.
  cbn [device interrupted output]. split; [exact Hfd|].
  split; [reflexivity|].
  rewrite closed_fds_app, (parser_events_close_nothing out Ho).
  rewrite Hfd. reflexivity.
Qed.

Lemma mctp_init_flag {P : Platform} {M : Processor} (env : os_env)
    (w : world) :
  interrupted (mctp_init env w) = interrupted w.
Proof. unfold mctp_init. destruct (platform_init env (device w)). reflexivity. Qed.

(** Without a signal main does not return: once the arguments are parsed,
    no number of iterations brings the loop to its end.  (The usage text
    says so: the program runs until interrupted.) *)
Theorem main_waits_for_signal (P : Platform) (M : Processor)
    (argv : list string) (env : os_env) (sched : schedule) (fuel : nat)
    (w0 : world) :
  main_startup argv = Some (inr w0) ->
  at_startup sched = [] ->
  (forall k, in_iteration sched k = []) ->
  main argv env sched fuel = None.
Proof.
  intros Hs H0 Hq. unfold main. rewrite Hs, H0. cbn [deliver fold_left].
  rewrite (control_loop_no_signal sched fuel Hq); [reflexivity|].
  rewrite mctp_init_flag. apply (main_startup_state argv w0 Hs).
Qed.

(** On Linux, with a simulated device and no signal, 1000 iterations do
    not end the run. *)
Lemma main_waits_for_signal_sample :
  @main linux idle_processor ["prog"] os_fine no_signal 1000 = None.
Proof.
  apply (main_waits_for_signal linux idle_processor ["prog"] os_fine
           no_signal 1000
           (@Build_world idle_processor serial_device 0 tt [EvUsingPty]));
    reflexivity.
Defined.



(** ** platform_init and the descriptor it acquires *)

(** Entered with the handle closed, [platform_init] either succeeds with
    the acquired descriptor in the handle and nothing closed, or fails with
    the handle -1 and the acquired descriptor, if there was one, closed. *)
Lemma platform_init_descriptor {P : Platform} (env : os_env) (cfg : config_t) :
  fd cfg = -1 ->
  let d := acquired env cfg in
  let cfg' := fst (platform_init env cfg) in
  let out := snd (platform_init env cfg) in
  (perrors out = [] /\ d <> -1 /\ fd cfg' = d /\ closed_fds out = []) \/
  (perrors out <> [] /\ fd cfg' = -1 /\
   closed_fds out = if d =? -1 then [] else [d]).
Proof.
  intros Hfd. cbv zeta. unfold platform_init, acquired.
  destruct (is_empty (path cfg)).
  - destruct (Z.eqb_spec (os_posix_openpt env pty_flags) (-1)) as [E1|E1].
    { right. cbn. repeat split; [discriminate|exact Hfd]. }
    destruct (os_grantpt env (os_posix_openpt env pty_flags) =? -1).
    { right. cbn. repeat split; [discriminate|exact Hfd]. }
    destruct (os_unlockpt env (os_posix_openpt env pty_flags) =? -1).
    { right. cbn. repeat split; [discriminate|exact Hfd]. }
    destruct (os_ptsname env (os_posix_openpt env pty_flags)).
    + left. cbn. repeat split. exact E1.
    + right. cbn. repeat split; [discriminate|exact Hfd].
  - cbn [set_fd fd path].
    destruct (Z.eqb_spec (os_open env (path cfg) open_flags) (-1)) as [E1|E1].
    { right. cbn. repeat split; [discriminate|exact E1]. }
    destruct (os_tcgetattr env (os_open env (path cfg) open_flags))
      as [r tty].
    destruct (r =? 0); cbn [negb].
    2:{ right. cbn. repeat split. discriminate. }
    destruct (os_tcsetattr env _ TCSANOW _ =? 0); cbn [negb].
    + left. cbn. repeat split. exact E1.
    + right. cbn. repeat split. discriminate.
Qed.

(** [platform_init] accounts for the descriptor it acquires.  Entered with
    the handle closed, it ends in one of two ways: no failure reported, the
    descriptor in the handle and nothing closed; or a failure reported,
    the handle -1, and the descriptor closed exactly once if the system had
    handed one out (nothing closed if it had not).  It never changes the
    rate or the flow-control flag, and changes the path only by recording
    the name of the simulated device. *)
Theorem platform_init_keeps_or_closes (P : Platform) (env : os_env)
    (cfg : config_t) :
  fd cfg = -1 ->
  let d := acquired env cfg in
  let cfg' := fst (platform_init env cfg) in
  let out := snd (platform_init env cfg) in
  ((perrors out = [] /\ d <> -1 /\ fd cfg' = d /\ closed_fds out = []) \/
   (perrors out <> [] /\ fd cfg' = -1 /\
    closed_fds out = if d =? -1 then [] else [d])) /\
  baud cfg' = baud cfg /\
  hwflow cfg' = hwflow cfg /\
  (path cfg <> "" \/ perrors out <> [] -> path cfg' = path cfg).
Proof.
  intros Hfd. cbv zeta. split; [apply platform_init_descriptor, Hfd|].
  unfold platform_init.
  destruct (is_empty (path cfg)) eqn:Hp.
  - apply is_empty_true in Hp.
    destruct (os_posix_openpt env pty_flags =? -1);
      [repeat split|].
    destruct (os_grantpt env _ =? -1); [repeat split|].
    destruct (os_unlockpt env _ =? -1); [repeat split|].
    destruct (os_ptsname env _); [|repeat split].
    cbn. repeat split. intros [H|H]; [congruence|contradiction].
  - cbn [set_fd fd path].
    destruct (os_open env (path cfg) open_flags =? -1); [repeat split|].
    destruct (os_tcgetattr env _) as [r tty].
    destruct (r =? 0); cbn [negb]; [|repeat split].
    destruct (os_tcsetattr env _ TCSANOW _ =? 0); repeat split.
Qed.

(** On Linux, when the pseudo-terminal cannot be unlocked: descriptor 3 is
    closed and the handle stays -1. *)
Lemma platform_init_keeps_or_closes_unlock :
  fd serial_device = -1 /\
  @platform_init linux (os_sample 3 0 (-1) None 3 0 0) serial_device
  = (serial_device,
     [EvInitInfo "(pty)" 115200 false; EvPosixOpenpt 258; EvGrantpt 3;
      EvUnlockpt 3; EvPerror "grantpt/unlockpt"; EvClose 3]) /\
  closed_fds
    (snd (@platform_init linux (os_sample 3 0 (-1) None 3 0 0) serial_device))
  = [3].
Proof.
  destruct (platform_init_keeps_or_closes linux (os_sample 3 0 (-1) None 3 0 0)
              serial_device eq_refl) as [[[Hok _]|[_ [_ Hc]]] _].
  - discriminate Hok.
  - split; [reflexivity|]. split; [reflexivity|exact Hc].
Defined.

(** With a device path and no failure reported, [platform_init] has opened
    that path read-write, without a controlling terminal and non-blocking,
    read the attributes of the descriptor, and written back at once
    (TCSANOW) the attributes [configure_tty] computes from them; these four
    reports and calls are all it did.  The handle is the descriptor of the
    device; path, rate and flow-control flag are as they were. *)
Theorem platform_init_device (P : Platform) (env : os_env) (cfg : config_t) :
  path cfg <> "" ->
  perrors (snd (platform_init env cfg)) = [] ->
  let f := os_open env (path cfg) open_flags in
  let tty := configure_tty env (set_fd cfg f) (snd (os_tcgetattr env f)) in
  platform_init env cfg
  = (set_fd cfg f,
     [EvInitInfo (path cfg) (baud cfg) (negb (hwflow cfg =? 0));
      EvOpen (path cfg) open_flags;
      EvTcgetattr f;
      EvTcsetattr f TCSANOW tty]) /\
  f <> -1 /\
  fst (os_tcgetattr env f) = 0 /\
  os_tcsetattr env f TCSANOW tty = 0.
Proof.
  intros Hp Hok. cbv zeta. unfold platform_init in *.
  destruct (is_empty (path cfg)) eqn:He;
    [apply is_empty_true in He; contradiction|].
  cbn [set_fd fd path] in *.
  destruct (Z.eqb_spec (os_open env (path cfg) open_flags) (-1)) as [E1|E1];
    [discriminate Hok|].
  destruct (os_tcgetattr env (os_open env (path cfg) open_flags))
    as [r tty] eqn:Eg.
  cbn [fst snd].
  destruct (Z.eqb_spec r 0) as [E2|E2]; cbn [negb] in *;
    [|discriminate Hok].
  match goal with
  | |- context [os_tcsetattr env ?a ?b ?c =? 0] =>
      destruct (Z.eqb_spec (os_tcsetattr env a b c) 0) as [E3|E3]
  end; cbn [negb] in *; [|discriminate Hok].
  repeat split; assumption.
Qed.

(** On Linux, for /dev/ttyS0 at B9600 with flow control: the attributes
    written are 8 data bits, receiver on, modem lines ignored, RTS/CTS, and
    the code of the rate, which the C library also keeps in c_cflag. *)
Lemma platform_init_device_linux :
  let cfg := {| baud := 13; hwflow := 1; path := "/dev/ttyS0"; fd := -1 |} in
  path cfg <> "" /\
  @platform_init linux os_fine cfg
  = (set_fd cfg 3,
     [EvInitInfo "/dev/ttyS0" 13 true; EvOpen "/dev/ttyS0" 2306;
      EvTcgetattr 3;
      EvTcsetattr 3 0
        {| c_iflag := 0; c_oflag := 0; c_cflag := 2147485885; c_lflag := 0;
           c_ispeed := 13; c_ospeed := 13 |}]).
Proof.
  cbv zeta. split; [discriminate|].
  destruct (platform_init_device linux os_fine
              {| baud := 13; hwflow := 1; path := "/dev/ttyS0"; fd := -1 |}
              ltac:(discriminate) eq_refl) as [H _].
  rewrite H. vm_compute. reflexivity.
Defined.

Lemma mctp_init_unfold {P : Platform} {M : Processor} (env : os_env)
    (w : world) :
  device (mctp_init env w) = fst (platform_init env (device w)) /\
  output (mctp_init env w) = output w ++ snd (platform_init env (device w)).
Proof.
  unfold mctp_init. destruct (platform_init env (device w)). split; reflexivity.
Qed.

(** No descriptor outlives the run: when main returns after the loop, the
    descriptor that initialization acquired for the parsed configuration
    has been closed exactly once, by [platform_init] if initialization
    failed after getting it and by the teardown otherwise, and nothing else
    has been closed; when the system handed out none, nothing has been
    closed. *)
Theorem main_closes_what_it_acquired (P : Platform) (M : Processor)
    (argv : list string) (env : os_env) (sched : schedule) (fuel : nat)
    (w0 : world) (st : Z) (n : nat) (w : world) :
  main_startup argv = Some (inr w0) ->
  main argv env sched fuel = Some (st, n, w) ->
  closed_fds (output w)
  = (if acquired env (device w0) =? -1 then []
     else [acquired env (device w0)]).
Proof.
  intros Hs. unfold main. rewrite Hs.
  destruct (main_startup_state argv w0 Hs) as [Hfd [_ Hc0]].
  destruct (control_loop fuel sched 0
              (deliver (at_startup sched) (mctp_init env w0)))
    as [[m w1]|] eqn:Hl; [|discriminate].
  intros H. inversion H; subst. clear H.
  destruct (control_loop_exit sched fuel _ _ _ _ Hl) as [_ [Hd [Hc _]]].
  destruct (deliver_keeps (at_startup sched) (mctp_init env w0))
    as [Hd' [_ Hc']].
  destruct (mctp_init_unfold env w0) as [Hdi Hoi].
  destruct (teardown_closes w1) as [_ [Hout _]].
  rewrite Hout, closed_fds_app, Hc, Hc', Hoi, closed_fds_app, Hc0.
  rewrite Hd, Hd', Hdi. cbn [app].
  destruct (platform_init_descriptor env (device w0) Hfd)
    as [[_ [Hne [Hf Hcl]]]|[_ [Hf Hcl]]]; rewrite Hf, Hcl.
  - destruct (Z.eqb_spec (acquired env (device w0)) (-1)) as [E|_];
      [contradiction|reflexivity].
  - cbn [Z.eqb]. rewrite app_nil_r. reflexivity.
Qed.

(** On Linux, on a device whose attributes cannot be written: descriptor 3
    is closed by [platform_init], and not again by the teardown. *)
Lemma main_closes_what_it_acquired_sample :
  exists w,
    @main linux idle_processor ["prog"; "--tty=/dev/ttyS0"]
      (os_sample 3 0 0 None 3 0 (-1)) (signal_in 0 SIGINT) 1
    = Some (0, 1%nat, w) /\
    closed_fds (output w) = [3].
Proof.
  eexists. split; [vm_compute; reflexivity|].
  match goal with
  | |- closed_fds (output ?w) = _ =>
      rewrite (main_closes_what_it_acquired linux idle_processor
                 ["prog"; "--tty=/dev/ttyS0"]
                 (os_sample 3 0 0 None 3 0 (-1)) (signal_in 0 SIGINT) 1
                 (@Build_world idle_processor
                    (set_path serial_device "/dev/ttyS0") 0 tt [EvUsingPty])
                 0 1 w ltac:(vm_compute; reflexivity)
                 ltac:(vm_compute; reflexivity))
  end.
  vm_compute. reflexivity.
Defined.

(** ** The attributes platform_init writes *)

(** Bit [n] of both sides of an equation between flag words. *)
Ltac bit_of H n :=
  let Hb := fresh "Hb" in
  pose proof (f_equal (fun x => Z.testbit x n) H) as Hb;
  cbv beta in Hb;
  repeat rewrite ?Z.land_spec, ?Z.lor_spec, ?Z.bits_0 in Hb;
  revert Hb.

Ltac bit_cases n :=
  repeat match goal with
         | |- context [Z.testbit ?x n] => destruct (Z.testbit x n)
         end;
  cbn; intros; try reflexivity; try discriminate; try congruence.

Ltac bitwise n Hn :=
  apply Z.bits_inj'; intros n Hn;
  repeat rewrite ?Z.land_spec, ?Z.lor_spec, ?Z.bits_0;
  repeat (rewrite Z.lnot_spec by exact Hn);
  repeat rewrite ?Z.land_spec, ?Z.lor_spec.

Lemma clear_bits_part (flags mask part : Z) :
  Z.land part mask = part -> Z.land (clear_bits flags mask) part = 0.
Proof.
  intros H. unfold clear_bits. bitwise n Hn. bit_of H n. bit_cases n.
Qed.

Lemma clear_bits_rest (flags mask : Z) :
  Z.land (clear_bits flags mask) (Z.lnot mask) = Z.land flags (Z.lnot mask).
Proof. unfold clear_bits. bitwise n Hn. bit_cases n. Qed.

Lemma land_lor_l (a b : Z) : Z.land a (Z.lor a b) = a.
Proof. bitwise n Hn. bit_cases n. Qed.

Lemma land_lor_r (a b : Z) : Z.land b (Z.lor a b) = b.
Proof. bitwise n Hn. bit_cases n. Qed.

(** Raw mode: in the attributes [platform_init] writes, canonical input,
    the two echo flags, signal characters, the three software flow-control
    flags and output post-processing are all off, whatever the attributes
    read back were and whatever the configuration; every other bit of the
    input, output and local flags, and both speeds, are as the two speed
    calls left them. *)
Theorem configure_tty_raw (P : Platform) (env : os_env) (cfg : config_t)
    (tty : termios) :
  let t := configure_tty env cfg tty in
  let t0 := with_speeds env cfg tty in
  Forall (fun flag => Z.land (c_lflag t) flag = 0) [ICANON; ECHO; ECHOE; ISIG] /\
  Forall (fun flag => Z.land (c_iflag t) flag = 0) [IXON; IXOFF; IXANY] /\
  Z.land (c_oflag t) OPOST = 0 /\
  Z.land (c_lflag t) (Z.lnot (Z.lor (Z.lor (Z.lor ICANON ECHO) ECHOE) ISIG))
  = Z.land (c_lflag t0)
      (Z.lnot (Z.lor (Z.lor (Z.lor ICANON ECHO) ECHOE) ISIG)) /\
  Z.land (c_iflag t) (Z.lnot (Z.lor (Z.lor IXON IXOFF) IXANY))
  = Z.land (c_iflag t0) (Z.lnot (Z.lor (Z.lor IXON IXOFF) IXANY)) /\
  Z.land (c_oflag t) (Z.lnot OPOST) = Z.land (c_oflag t0) (Z.lnot OPOST) /\
  c_ispeed t = c_ispeed t0 /\ c_ospeed t = c_ospeed t0.
Proof.
  cbv zeta. unfold configure_tty, with_speeds.
  cbn [c_lflag c_iflag c_oflag c_ispeed c_ospeed].
  repeat split; try apply clear_bits_rest.
  - repeat constructor; apply clear_bits_part; bitwise n Hn; bit_cases n.
  - repeat constructor; apply clear_bits_part; bitwise n Hn; bit_cases n.
  - apply clear_bits_part. apply Z.land_diag.
Qed.

(** 8N1 and flow control: where the bits of [c_cflag] lie as <termios.h>
    lays them out, the attributes [platform_init] writes have parity off,
    one stop bit, eight data bits, the receiver on and the modem lines
    ignored, and RTS/CTS flow control on exactly when [hwflow] is not 0. *)
Theorem configure_tty_8N1 (P : Platform) (env : os_env) (cfg : config_t)
    (tty : termios) :
  cflag_layout ->
  let cf := c_cflag (configure_tty env cfg tty) in
  Z.land cf PARENB = 0 /\
  Z.land cf CSTOPB = 0 /\
  Z.land cf CSIZE = CS8 /\
  Z.land cf CREAD = CREAD /\
  Z.land cf CLOCAL = CLOCAL /\
  Z.land cf CRTSCTS = (if hwflow cfg =? 0 then 0 else CRTSCTS).
Proof.
  intros [H1 [H2 [H3 [H4 H5]]]]. cbv zeta.
  unfold configure_tty. cbn [c_cflag].
  set (c0 := c_cflag (os_cfsetispeed env _ _)).
  unfold clear_bits, set_bits.
  destruct (hwflow cfg =? 0); repeat split; bitwise n Hn;
    bit_of H1 n; bit_of H2 n; bit_of H3 n; bit_of H4 n; bit_of H5 n;
    bit_cases n.
Qed.

(** On Linux: the layout holds, and from attributes with every bit set the
    control flags come out with the size 8, no parity, one stop bit and no
    RTS/CTS when flow control is off. *)
Lemma configure_tty_8N1_linux :
  @cflag_layout linux /\
  let all := {| c_iflag := 4294967295; c_oflag := 4294967295;
                c_cflag := 4294967295; c_lflag := 4294967295;
                c_ispeed := 0; c_ospeed := 0 |} in
  let cf := c_cflag (@configure_tty linux os_fine serial_device all) in
  Z.land cf 256 = 0 /\ Z.land cf 64 = 0 /\ Z.land cf 48 = 48 /\
  Z.land cf 2147483648 = 0.
Proof.
  assert (HL : @cflag_layout linux) by (repeat split).
  split; [exact HL|]. cbv zeta.
  destruct (configure_tty_8N1 linux os_fine serial_device
              {| c_iflag := 4294967295; c_oflag := 4294967295;
                 c_cflag := 4294967295; c_lflag := 4294967295;
                 c_ispeed := 0; c_ospeed := 0 |} HL)
    as [Hp [Hs [Hz [_ [_ Hc]]]]].
  repeat split; assumption.
Defined.

(** ** The readiness queries after initialization *)

(** After [platform_init], entered with the handle closed: if it reported
    a failure, both readiness queries answer 0 without a system call, in
    every later state of the system (the program idles instead of
    failing); if it reported none, each query polls the acquired
    descriptor, and that one alone, once and without waiting. *)
Theorem readiness_after_init (P : Platform) (env later : os_env)
    (cfg : config_t) :
  fd cfg = -1 ->
  let cfg' := fst (platform_init env cfg) in
  let out := snd (platform_init env cfg) in
  let d := acquired env cfg in
  (perrors out <> [] ->
   platform_serial_has_data later cfg' = (0, []) /\
   platform_serial_can_write later cfg' = (0, [])) /\
  (perrors out = [] ->
   snd (platform_serial_has_data later cfg')
   = [EvSelect (d + 1) (Some [d]) None None (Some (0, 0))] /\
   snd (platform_serial_can_write later cfg')
   = [EvSelect (d + 1) None (Some [d]) None (Some (0, 0))]).
Proof.
  intros Hfd. cbv zeta.
  destruct (platform_init_descriptor env cfg Hfd)
    as [[Hok [Hne [Hf _]]]|[Hbad [Hf _]]].
  - split; [intros H; contradiction|]. intros _.
    unfold platform_serial_has_data, platform_serial_can_write.
    rewrite Hf.
    destruct (Z.eqb_spec (acquired env cfg) (-1)) as [E|_]; [contradiction|].
    destruct (os_select later _ (Some _) None None _) as [[r1 a1] b1].
    destruct (os_select later _ None (Some _) None _) as [[r2 a2] b2].
    split; reflexivity.
  - split; [|intros H; contradiction]. intros _.
    unfold platform_serial_has_data, platform_serial_can_write.
    rewrite Hf. split; reflexivity.
Qed.

(** On Linux, after the failure to open a device: no poll. *)
Lemma readiness_after_init_failed_open :
  let cfg := set_path serial_device "/dev/ttyS0" in
  let env := os_sample 3 0 0 None (-1) 0 0 in
  fd cfg = -1 /\
  perrors (snd (@platform_init linux env cfg)) = ["open"] /\
  platform_serial_has_data os_fine (fst (@platform_init linux env cfg))
  = (0, []).
Proof.
  cbv zeta.
  destruct (readiness_after_init linux (os_sample 3 0 0 None (-1) 0 0) os_fine
              (set_path serial_device "/dev/ttyS0") eq_refl) as [Hbad _].
  split; [reflexivity|]. split; [reflexivity|].
  apply Hbad. discriminate.
Defined.

(** ** Each option touches its own field *)

Lemma parseArgs_step_frame {P : Platform} (argv : list string)
    (d : getopt_data) (cfg : config_t) (out : list event) :
  match parseArgs_step argv (d, cfg, out) with
  | inl (_, cfg', _) => cfg' = cfg
  | inr (_, cfg', _) =>
      (getopt_answer argv (d, cfg, out) <> ch "t" -> path cfg' = path cfg) /\
      (getopt_answer argv (d, cfg, out) <> ch "b" -> baud cfg' = baud cfg) /\
      (getopt_answer argv (d, cfg, out) <> ch "f" -> hwflow cfg' = hwflow cfg)
  end.
Proof.
  unfold parseArgs_step, getopt_answer. cbn [fst].
  destruct (getopt_long argv optstring_main longOpts d) as [[opt d1] ev].
  cbn [fst]. destruct (opt =? -1); [reflexivity|].
  destruct (option_value argv d1) as [val d2].
  destruct (Z.eqb_spec opt (ch "t")) as [Et|Et].
  { subst opt. destruct val; repeat split; try reflexivity; contradiction. }
  destruct (Z.eqb_spec opt (ch "b")) as [Eb|Eb].
  { subst opt. destruct val as [v|]; [|repeat split].
    destruct (baudRateFromString (Some v)).
    repeat split; try reflexivity; contradiction. }
  destruct (Z.eqb_spec opt (ch "f")) as [Ef|Ef]; [|reflexivity].
  subst opt. destruct val as [v|]; [|repeat split].
  destruct (parseBool (Some v)).
  repeat split; try reflexivity; contradiction.
Qed.

(** What parseArgs returns, it returns from a state the scan reaches, with
    the configuration of that state. *)
Lemma parseArgs_loop_from {P : Platform} (argv : list string)
    (cfg0 : config_t) (fuel : nat) :
  forall s res,
    scan_reaches argv cfg0 s ->
    parseArgs_loop fuel argv s = Some res ->
    exists s', scan_reaches argv cfg0 s' /\
               parseArgs_step argv s' = inl res.
Proof.
  induction fuel as [|fuel IH]; intros s res Hr H; [discriminate|].
  cbn [parseArgs_loop] in H.
  destruct (parseArgs_step argv s) as [r0|s1] eqn:E.
  - inversion H; subst. exists s. split; assumption.
  - apply (IH s1 res); [|exact H]. exact (reach_step argv cfg0 s s1 Hr E).
Qed.

(** An option sets its own field and no other: when the scan of the
    arguments never comes to the path option, the path parseArgs leaves is
    the one it started with; likewise the rate without the baud option and
    the flow-control flag without the hwflow option.  This holds whether
    parseArgs succeeds or fails. *)
Theorem parseArgs_frame (P : Platform) (argv : list string)
    (cfg0 cfg : config_t) (r : Z) (out : list event) :
  parseArgs argv cfg0 = Some (r, cfg, out) ->
  ((forall s, scan_reaches argv cfg0 s -> getopt_answer argv s <> ch "t") ->
   path cfg = path cfg0) /\
  ((forall s, scan_reaches argv cfg0 s -> getopt_answer argv s <> ch "b") ->
   baud cfg = baud cfg0) /\
  ((forall s, scan_reaches argv cfg0 s -> getopt_answer argv s <> ch "f") ->
   hwflow cfg = hwflow cfg0).
Proof.
  intros Hp. unfold parseArgs in Hp.
  destruct (parseArgs_loop_from argv cfg0 _ _ _ (reach_start argv cfg0) Hp)
    as [[[d c] o] [Hr Hstep]].
  pose proof (parseArgs_step_frame argv d c o) as Hf.
  rewrite Hstep in Hf. subst c.
  assert (Hinv : forall (field : config_t -> Z + string) (x : ascii),
             (forall d0 c0 o0 d1 c1 o1,
                 parseArgs_step argv (d0, c0, o0) = inr (d1, c1, o1) ->
                 getopt_answer argv (d0, c0, o0) <> ch x ->
                 field c1 = field c0) ->
             (forall s, scan_reaches argv cfg0 s ->
                        getopt_answer argv s <> ch x) ->
             forall s, scan_reaches argv cfg0 s ->
                       field (snd (fst s)) = field cfg0).
  { intros field x Hone Hnever s Hs.
    induction Hs as [|[[d0 c0] o0] [[d1 c1] o1] Hs0 IH E]; [reflexivity|].
    cbn [fst snd] in *. rewrite <- IH.
    apply (Hone _ _ _ _ _ _ E). apply Hnever, Hs0. }
  split; [|split]; intros Hnever.
  - assert (H : @inr Z string (path cfg) = inr (path cfg0)).
    { refine (Hinv (fun c => inr (path c)) "t"%char _ Hnever (d, cfg, o) Hr).
      intros d0 c0 o0 d1 c1 o1 E Hn.
      pose proof (parseArgs_step_frame argv d0 c0 o0) as H0.
      rewrite E in H0. destruct H0 as [H0 _]. rewrite (H0 Hn). reflexivity. }
    inversion H. reflexivity.
  - assert (H : @inl Z string (baud cfg) = inl (baud cfg0)).
    { refine (Hinv (fun c => inl (baud c)) "b"%char _ Hnever (d, cfg, o) Hr).
      intros d0 c0 o0 d1 c1 o1 E Hn.
      pose proof (parseArgs_step_frame argv d0 c0 o0) as H0.
      rewrite E in H0. destruct H0 as [_ [H0 _]]. rewrite (H0 Hn). reflexivity. }
    inversion H. reflexivity.
  - assert (H : @inl Z string (hwflow cfg) = inl (hwflow cfg0)).
    { refine (Hinv (fun c => inl (hwflow c)) "f"%char _ Hnever (d, cfg, o) Hr).
      intros d0 c0 o0 d1 c1 o1 E Hn.
      pose proof (parseArgs_step_frame argv d0 c0 o0) as H0.
      rewrite E in H0. destruct H0 as [_ [_ H0]]. rewrite (H0 Hn). reflexivity. }
    inversion H. reflexivity.
Qed.

(** On Linux, for a start with a device path and no rate: the rate handed
    on is the initializer's plain 115200, which is none of the speeds
    (B115200 is 4098 there). *)
Lemma parseArgs_frame_default_rate :
  @parseArgs linux ["prog"; "--tty"; "/dev/ttyS0"] serial_device
  = Some (1, set_path serial_device "/dev/ttyS0", []) /\
  baud (set_path serial_device "/dev/ttyS0") = 115200 /\
  existsb (Z.eqb 115200) (@speed_constants linux) = false.
Proof.
  pose (argv := ["prog"; "--tty"; "/dev/ttyS0"]).
  assert (Hp : @parseArgs linux argv serial_device
               = Some (1, set_path serial_device "/dev/ttyS0", []))
    by (vm_compute; reflexivity).
  assert (Hnever : forall s, @scan_reaches linux argv serial_device s ->
                             getopt_answer argv s <> ch "b").
  { assert (Hall : forall s, @scan_reaches linux argv serial_device s ->
               s = (getopt_start, serial_device, []) \/
               s = ({| optind := 3; optarg := None; nextchar := "" |},
                    set_path serial_device "/dev/ttyS0", [])).
    { induction 1 as [|s s' _ IH E]; [left; reflexivity|].
      destruct IH as [-> | ->]; vm_compute in E; inversion E.
      right. reflexivity. }
    intros s Hs. destruct (Hall s Hs) as [-> | ->]; vm_compute; discriminate. }
  destruct (parseArgs_frame linux argv serial_device _ _ _ Hp)
    as [_ [Hb _]].
  split; [exact Hp|]. split; [exact (Hb Hnever)|reflexivity].
Defined.

(** ** Which way platform_init goes *)

(** The path alone decides the mode.  With an empty path [platform_init]
    asks for a pseudo-terminal and never opens a device or touches terminal
    attributes; with any other path it opens that device and never asks for
    a pseudo-terminal.  In both modes its first report is the
    configuration it was given. *)
Theorem platform_init_mode (P : Platform) (env : os_env) (cfg : config_t) :
  let out := snd (platform_init env cfg) in
  nth_error out 0
  = Some (EvInitInfo (if is_empty (path cfg) then "(pty)" else path cfg)
            (baud cfg) (negb (hwflow cfg =? 0))) /\
  (if is_empty (path cfg)
   then nth_error out 1 = Some (EvPosixOpenpt pty_flags) /\
        existsb is_device_call out = false
   else nth_error out 1 = Some (EvOpen (path cfg) open_flags) /\
        existsb is_pty_call out = false).
Proof.
  cbv zeta. unfold platform_init.
  destruct (is_empty (path cfg)).
  - destruct (os_posix_openpt env pty_flags =? -1); [repeat split|].
    destruct (os_grantpt env _ =? -1); [repeat split|].
    destruct (os_unlockpt env _ =? -1); [repeat split|].
    destruct (os_ptsname env _); repeat split.
  - cbn [set_fd fd path].
    destruct (os_open env (path cfg) open_flags =? -1); [repeat split|].
    destruct (os_tcgetattr env _) as [r tty].
    destruct (r =? 0); cbn [negb]; [|repeat split].
    destruct (os_tcsetattr env _ TCSANOW _ =? 0); repeat split.
Qed.
